(** * Réseau de tchat en anneau : formats, messages, tableaux, assemblage

    Shallow embedding of the chat library (formats of vertices, nodes,
    configurations and messages, and the derivations on messages), of the
    array library (mutable arrays, Fisher-Yates shuffle) and of the ring
    assembler of the design notes, followed by the properties proved of
    them.

    Conventions of the embedding.
    - A function or method with effects is a program over the store it
      can reach: [Prog S A] maps a store to an outcome (a returned value
      or a thrown exception) and the store afterwards.
    - Message envelopes built by [new] live in a heap; a reference is an
      index in it. The module functions on a mutable array take the
      array as their store.
    - A native JavaScript array is a list of cells; a cell is [None] when
      reading it yields [undefined] (a hole or a stored [undefined]).
      The cells are followed where the positions written are array
      indices ([Natif.estIndice]), and the fields [taille] are counted
      in [Z], as the code counts on the safe integers
      ([Natif.entierSur]): the statements that add or remove cells
      carry these bounds.
    - The shuffle is embedded twice: on the cells ([Tableau.melange]),
      and on a heap of arrays ([TableauEnTas.melange]) where the array
      returned has an identity of its own.
    - Identifiers are records [{ val : string }] tagged by a sort.
    - Types declared in files that are not part of the sources
      ([FormatDateFr], [FormatTableIdentification], the random generator)
      are parameters.

    Plan: the embedding (programs, chat formats, arrays, ring assembler),
    the vocabulary of the statements, then the properties. *)

From Stdlib Require Import ZArith Lia Ascii String.
From stdpp Require Import gmap strings list.

Open Scope string_scope.
Open Scope list_scope.

(* ===================================================================== *)
(** * Programs: state and exceptions                                      *)
(* ===================================================================== *)

(** Outcome of a call: a returned value, or a thrown [Error(message)]. *)
Inductive Issue (A : Type) : Type :=
| Retour (a : A)
| Exception (message : string).
Arguments Retour {A} a.
Arguments Exception {A} message.

(** A program over a store [S]: the store is threaded through, and it is
    kept as it stands when an exception is thrown (JavaScript has no
    rollback). *)
Definition Prog (S A : Type) : Type := S -> Issue A * S.

Definition retourner {S A} (a : A) : Prog S A :=
  fun s => (Retour a, s).

Definition lever {S A} (message : string) : Prog S A :=
  fun s => (Exception message, s).

Definition lier {S A B} (m : Prog S A) (k : A -> Prog S B) : Prog S B :=
  fun s =>
    match m s with
    | (Retour a, s') => k a s'
    | (Exception e, s') => (Exception e, s')
    end.

Definition modifier {S} (f : S -> S) : Prog S unit :=
  fun s => (Retour tt, f s).

Notation "x <- m ;; k" := (lier m (fun x => k))
  (at level 100, m at next level, right associativity).
Notation "m ;;; k" := (lier m (fun _ => k))
  (at level 100, right associativity).

(** A loop over the elements of a list, in order; it stops at the first
    exception. *)
Fixpoint pourChaque {S A} (l : list A) (corps : A -> Prog S unit)
  : Prog S unit :=
  match l with
  | [] => retourner tt
  | x :: suite => corps x ;;; pourChaque suite corps
  end.

(* ===================================================================== *)
(** * Chat formats                                                        *)
(* ===================================================================== *)

(** [Unite.ZERO], the only value of the marker fields. *)
Inductive Unite : Type := ZERO.

(** Sorts of identifiers: [Identifiant<'sommet'>], [Identifiant<'message'>]
    in the chat; domains and users in the notes of the ring assembler. *)
Inductive Sorte : Type := sommet | message | domaine | utilisateur.

(** [Identifiant<Sorte>]: the code reads its string as [ID.val]. *)
Record Identifiant (s : Sorte) : Type := { val : string }.
Arguments val {s} _.

#[global] Instance Identifiant_eq_dec s : EqDecision (Identifiant s).
Proof. solve_decision. Defined.

#[global] Instance Identifiant_countable s : Countable (Identifiant s).
Proof.
  apply (inj_countable' val (Build_Identifiant s)).
  intros [v]; reflexivity.
Defined.

(** ** Vertices *)
Module Sommet.

(** [FormatSommetTchat]: identifier and pseudo of a user. *)
Record FormatSommetTchat : Type := {
  ID : Identifiant sommet;
  pseudo : string
}.

(** [SommetTchatParEnveloppe.representation]: "nom (ID)". *)
Definition representation (s : FormatSommetTchat) : string :=
  pseudo s +:+ " (" +:+ val (ID s) +:+ ")".

End Sommet.

(** ** Nodes *)
Module Noeud.
Section Voisinage.
(** [FormatTableIdentification<'sommet', FormatSommetTchat>], declared in
    [bibliotheque/types/tableIdentification]: the functions below only
    copy it, so it stays a type parameter. *)
Variable FormatTableIdentification : Type.

(** [FormatNoeudTchat]: a centre and the table of its neighbours. *)
Record FormatNoeudTchat : Type := {
  centre : Sommet.FormatSommetTchat;
  voisins : FormatTableIdentification
}.

(** [NoeudTchatParEnveloppe]: the envelope holds the JSON state. *)
Record NoeudTchatParEnveloppe : Type := { etat : FormatNoeudTchat }.

(** [Enveloppe.val] for a node: the state as it is. *)
Definition valeur (n : NoeudTchatParEnveloppe) : FormatNoeudTchat := etat n.

(** [noeudTchat(n)]: [new NoeudTchatParEnveloppe(n)]. *)
Definition noeudTchat (n : FormatNoeudTchat) : NoeudTchatParEnveloppe :=
  {| etat := n |}.

End Voisinage.
Arguments centre {FormatTableIdentification} _.
Arguments voisins {FormatTableIdentification} _.
Arguments etat {FormatTableIdentification} _.
Arguments valeur {FormatTableIdentification} _.
Arguments noeudTchat {FormatTableIdentification} _.
End Noeud.

(** ** Configurations *)
Module Configuration.
Section Formats.
Variable FormatTableIdentification : Type.
(** [FormatDateFr], declared in [bibliotheque/types/date]. *)
Variable FormatDateFr : Type.

(** [FormatConfigurationTchat]. *)
Record FormatConfigurationTchat : Type := {
  configurationInitiale : Unite;
  centre : Sommet.FormatSommetTchat;
  voisins : FormatTableIdentification;
  date : FormatDateFr
}.

(** [ConfigurationTchatParEnveloppe]. *)
Record ConfigurationTchatParEnveloppe : Type := {
  etat : FormatConfigurationTchat
}.

(** [Enveloppe.val] for a configuration: the state as it is. *)
Definition valeur (c : ConfigurationTchatParEnveloppe)
  : FormatConfigurationTchat := etat c.

(** [ConfigurationTchatParEnveloppe.noeud]. *)
Definition noeud (this : ConfigurationTchatParEnveloppe)
  : Noeud.NoeudTchatParEnveloppe FormatTableIdentification :=
  let centre0 := centre (valeur this) in
  let voisins0 := voisins (valeur this) in
  Noeud.noeudTchat {| Noeud.centre := centre0; Noeud.voisins := voisins0 |}.

(** [configurationTchat(c)]. *)
Definition configurationTchat (c : FormatConfigurationTchat)
  : ConfigurationTchatParEnveloppe := {| etat := c |}.

(** [configurationDeNoeudTchat(n, date)]. *)
Definition configurationDeNoeudTchat
    (n : Noeud.FormatNoeudTchat FormatTableIdentification)
    (date0 : FormatDateFr) : ConfigurationTchatParEnveloppe :=
  {| etat := {| configurationInitiale := ZERO;
                centre := Noeud.centre n;
                voisins := Noeud.voisins n;
                date := date0 |} |}.

End Formats.
Arguments configurationInitiale {_ _} _.
Arguments centre {_ _} _.
Arguments voisins {_ _} _.
Arguments date {_ _} _.
Arguments etat {_ _} _.
Arguments valeur {_ _} _.
Arguments noeud {_ _} _.
Arguments configurationTchat {_ _} _.
Arguments configurationDeNoeudTchat {_ _} _ _.
End Configuration.

(** ** Messages *)
Module Message.

(** [TypeMessageTchat]. *)
Inductive TypeMessageTchat : Type :=
| COM
| TRANSIT
| AR
| ERREUR_CONNEXION
| ERREUR_EMET
| ERREUR_DEST
| ERREUR_TYPE
| INTERDICTION.

Section Formats.
(** [FormatDateFr], declared in [bibliotheque/types/date]. *)
Variable FormatDateFr : Type.

(** [FormatMessageTchat]. *)
Record FormatMessageTchat : Type := {
  ID : Identifiant message;
  ID_emetteur : Identifiant sommet;
  ID_destinataire : Identifiant sommet;
  type : TypeMessageTchat;
  contenu : string;
  date : FormatDateFr
}.

(** A reference to a [MessageTchatParEnveloppe] object. *)
Definition Ref : Type := nat.

(** The store the message functions reach: the heap of message envelopes
    (object number [r] encloses the state [tas !! r]) and the clock, the
    number of readings of the time made so far. *)
Record Monde : Type := {
  tas : list FormatMessageTchat;
  tic : nat
}.

(** The time source read by [dateMaintenant] (declared in
    [bibliotheque/types/date]): reading number [n] yields [horloge n]. *)
Variable horloge : nat -> FormatDateFr.

(** [dateMaintenant().val()]: the current date; the clock moves on. *)
Definition dateMaintenant : Prog Monde FormatDateFr :=
  fun m => (Retour (horloge (tic m)), {| tas := tas m; tic := S (tic m) |}).

(** [new MessageTchatParEnveloppe(etat)]: a fresh object at the end of the
    heap; no object in place is touched. *)
Definition nouveau (etat : FormatMessageTchat) : Prog Monde Ref :=
  fun m => (Retour (length (tas m)),
            {| tas := tas m ++ [etat]; tic := tic m |}).

(** [this.val()] (inherited from [MessageParEnveloppe], which encloses
    the state without converting it): the state of the object. A
    reference to no object cannot arise in the source; here it throws. *)
Definition valeur (this : Ref) : Prog Monde FormatMessageTchat :=
  fun m =>
    match tas m !! this with
    | Some etat => (Retour etat, m)
    | None => (Exception "TypeError", m)
    end.

(** [MessageTchatParEnveloppe.transit]. *)
Definition transit (this : Ref) : Prog Monde Ref :=
  msg <- valeur this ;;
  nouveau {| ID := ID msg;
             ID_emetteur := ID_emetteur msg;
             ID_destinataire := ID_destinataire msg;
             type := TRANSIT;
             contenu := contenu msg;
             date := date msg |}.

(** [MessageTchatParEnveloppe.avecAccuseReception]. *)
Definition avecAccuseReception (this : Ref) : Prog Monde Ref :=
  msg <- valeur this ;;
  nouveau {| ID := ID msg;
             ID_emetteur := ID_emetteur msg;
             ID_destinataire := ID_destinataire msg;
             type := AR;
             contenu := contenu msg;
             date := date msg |}.

(** [messageTchat(m)]. *)
Definition messageTchat (m : FormatMessageTchat) : Prog Monde Ref :=
  nouveau m.

(** [messageErreurConnexion(id, idEmetteur, messageErreur)]. *)
Definition messageErreurConnexion (id : Identifiant message)
    (idEmetteur : Identifiant sommet) (messageErreur : string)
  : Prog Monde Ref :=
  maintenant <- dateMaintenant ;;
  nouveau {| ID := id;
             ID_emetteur := idEmetteur;
             ID_destinataire := idEmetteur;
             type := ERREUR_CONNEXION;
             contenu := messageErreur;
             date := maintenant |}.

(** [messageCommunication(id, idEmetteur, idDestinataire, texte, date)]. *)
Definition messageCommunication (id : Identifiant message)
    (idEmetteur idDestinataire : Identifiant sommet) (texte : string)
    (date0 : FormatDateFr) : Prog Monde Ref :=
  nouveau {| ID := id;
             ID_emetteur := idEmetteur;
             ID_destinataire := idDestinataire;
             type := COM;
             contenu := texte;
             date := date0 |}.

(** [messageRetourErreur(original, codeErreur, messageErreur)]: the
    original is read once per copied field, as in the source. *)
Definition messageRetourErreur (original : Ref)
    (codeErreur : TypeMessageTchat) (messageErreur : string)
  : Prog Monde Ref :=
  v1 <- valeur original ;;
  v2 <- valeur original ;;
  v3 <- valeur original ;;
  v4 <- valeur original ;;
  nouveau {| ID := ID v1;
             ID_emetteur := ID_emetteur v2;
             ID_destinataire := ID_destinataire v3;
             type := codeErreur;
             contenu := messageErreur;
             date := date v4 |}.

End Formats.
Arguments ID {_} _.
Arguments ID_emetteur {_} _.
Arguments ID_destinataire {_} _.
Arguments type {_} _.
Arguments contenu {_} _.
Arguments date {_} _.
Arguments tas {_} _.
Arguments tic {_} _.
Arguments nouveau {_} _ _.
Arguments valeur {_} _ _.
Arguments transit {_} _ _.
Arguments avecAccuseReception {_} _ _.
Arguments messageTchat {_} _ _.
Arguments messageErreurConnexion {_} _ _ _ _ _.
Arguments messageCommunication {_} _ _ _ _ _ _.
Arguments messageRetourErreur {_} _ _ _ _.
Arguments dateMaintenant {_} _ _.
End Message.

(* ===================================================================== *)
(** * Arrays                                                              *)
(* ===================================================================== *)

(** ** Native JavaScript arrays *)
Module Natif.

(** What an array position holds at run time, [T] being the defined
    values of the element type: [Some v], or [None] when reading the
    position yields [undefined] (a hole left by [new Array(n)], or an
    [undefined] stored there: an element type such as
    [number | undefined] allows it). *)
Abbreviation Case := option (only parsing).

(** The safe integers, [Number.isSafeInteger]: a number holds them, and
    their successor and predecessor, exactly. The fields [taille] are
    numbers; the embedding counts them in [Z], which is what [n++] and
    [n--] do on the safe integers only (from 2^53 on, [n++] returns
    [n]). *)
Definition entierSur (n : Z) : Prop := (- 2 ^ 53 < n < 2 ^ 53)%Z.

(** The array indices: the naturals below 2^32 - 1. An array has at
    most 2^32 - 1 cells; a write at a position that is not an array
    index sets a plain property and leaves [length] alone, and [push]
    on an array of 2^32 - 1 cells throws a [RangeError]. The embedding
    keeps the cells only, so it follows the code where the positions
    written are array indices. *)
Definition estIndice (i : nat) : Prop := (Z.of_nat i < 2 ^ 32 - 1)%Z.

Section Cases.
(** The defined values of the element type. *)
Variable T : Type.

(** [new Array(n)]: [n] holes. *)
Definition nouveauTableau (n : nat) : list (Case T) := replicate n None.

(** [a[i]]: [undefined] outside the array. *)
Definition lireIndice (a : list (Case T)) (i : nat) : Case T :=
  default None (a !! i).

(** [a[i] = v], for an array index [i] ([estIndice]): in place inside
    the array; beyond its end the array is extended by holes up to
    position [i]. *)
Definition ecrireIndice (a : list (Case T)) (i : nat) (v : Case T) : list (Case T) :=
  if decide (i < length a) then <[i := v]> a
  else a ++ replicate (i - length a) None ++ [v].

(** [a.push(x)], where the length of [a] is an array index
    ([estIndice]): on an array of 2^32 - 1 cells [push] throws. *)
Definition push (a : list (Case T)) (x : Case T) : list (Case T) := a ++ [x].

(** [a.pop()]: the last position is removed and its content returned;
    on an empty array nothing changes and [undefined] is returned. *)
Definition pop (a : list (Case T)) : Case T * list (Case T) :=
  (default None (last a), removelast a).

(** The keys enumerated by [for (let i in a)]: the positions that are
    not holes, in increasing order. *)
Definition cles (a : list (Case T)) : list nat :=
  filter (fun i => is_Some (lireIndice a i)) (seq 0 (length a)).

End Cases.
Arguments nouveauTableau {T} n.
Arguments lireIndice {T} a i.
Arguments ecrireIndice {T} a i v.
Arguments push {T} a x.
Arguments pop {T} a.
Arguments cles {T} a.
End Natif.

(** ** Mutable arrays: [FormatTableauMutable] and its module functions *)
Module TableauMutable.
Section Elements.
Variable T : Type.

(** [FormatTableauMutable<T>]. Documented invariant:
    [taille == tableau.length]. *)
Record FormatTableauMutable : Type := {
  taille : Z;
  tableau : list (Natif.Case T);
  mutable : Unite
}.

(** The invariant stated with the format. *)
Definition invariant (t : FormatTableauMutable) : Prop :=
  taille t = Z.of_nat (length (tableau t)).

(** [FabriqueTableauEnJSON.creerVideMutable]. *)
Definition creerVideMutable : FormatTableauMutable :=
  {| taille := 0; tableau := []; mutable := ZERO |}.

(** [FabriqueTableauEnJSON.creerEnveloppeMutable]. *)
Definition creerEnveloppeMutable (tab : list (Natif.Case T))
  : FormatTableauMutable :=
  {| taille := Z.of_nat (length tab); tableau := tab; mutable := ZERO |}.

(** [t.taille++], exact where [taille] is a safe integer
    ([Natif.entierSur]). *)
Definition incrementerTaille : Prog FormatTableauMutable unit :=
  modifier (fun t => {| taille := taille t + 1;
                        tableau := tableau t;
                        mutable := mutable t |}).

(** [t.taille--], exact where [taille] is a safe integer
    ([Natif.entierSur]). *)
Definition decrementerTaille : Prog FormatTableauMutable unit :=
  modifier (fun t => {| taille := taille t - 1;
                        tableau := tableau t;
                        mutable := mutable t |}).

(** [t.tableau.push(x)]. *)
Definition pushTableau (x : Natif.Case T) : Prog FormatTableauMutable unit :=
  modifier (fun t => {| taille := taille t;
                        tableau := Natif.push (tableau t) x;
                        mutable := mutable t |}).

(** [t.tableau.pop()]. *)
Definition popTableau : Prog FormatTableauMutable (Natif.Case T) :=
  fun t =>
    let (r, reste) := Natif.pop (tableau t) in
    (Retour r, {| taille := taille t; tableau := reste; mutable := mutable t |}).

(** [ModuleTableauEnJSON.ajouterEnFin(t, x)]; the store is [t]. *)
Definition ajouterEnFin (x : Natif.Case T) : Prog FormatTableauMutable unit :=
  incrementerTaille ;;;
  pushTableau x.

(** [ModuleTableauEnJSON.retirerEnFin(t)]; the store is [t]. The test
    [typeof r === "undefined"] holds exactly of [None]. *)
Definition retirerEnFin : Prog FormatTableauMutable T :=
  r <- popTableau ;;
  match r with
  | None => lever "[Exception : retirerEnFin() non défini.]"
  | Some v => decrementerTaille ;;; retourner v
  end.

End Elements.
Arguments taille {T} _.
Arguments tableau {T} _.
Arguments mutable {T} _.
Arguments invariant {T} _.
Arguments creerVideMutable {T}.
Arguments creerEnveloppeMutable {T} _.
Arguments ajouterEnFin {T} _ _.
Arguments retirerEnFin {T} _.
End TableauMutable.

(** ** Immutable arrays: [FormatTableau] and the shuffle *)
Module Tableau.
Section Elements.
Variable T : Type.

(** [FormatTableau<T>]. *)
Record FormatTableau : Type := {
  taille : Z;
  tableau : list (Natif.Case T)
}.

(** [FabriqueTableauEnJSON.vide]. *)
Definition vide : FormatTableau := {| taille := 0; tableau := [] |}.

(** [FabriqueTableauEnJSON.enveloppe]. *)
Definition enveloppe (tab : list (Natif.Case T)) : FormatTableau :=
  {| taille := Z.of_nat (length tab); tableau := tab |}.

(** The random generator behind [entierAleatoire] (declared in
    [bibliotheque/types/nombres]): a state, and a draw that consumes it. *)
Variable Generateur : Type.
Variable entierAleatoire : nat -> Generateur -> nat * Generateur.

(** What [melange(tab)] reaches outside its own locals: the argument
    array, shared with the caller, and the random generator. The array
    [t] it allocates is a local, threaded through the loops. *)
Record Environnement : Type := {
  tab : list (Natif.Case T);
  alea : Generateur
}.

(** [tab.length]. *)
Definition longueurTab : Prog Environnement nat :=
  fun e => (Retour (length (tab e)), e).

(** [tab[i]]. *)
Definition lireTab (i : nat) : Prog Environnement (Natif.Case T) :=
  fun e => (Retour (Natif.lireIndice (tab e) i), e).

(** The keys of [for (let i in tab)]. *)
Definition clesTab : Prog Environnement (list nat) :=
  fun e => (Retour (Natif.cles (tab e)), e).

(** [entierAleatoire(i)]. *)
Definition tirer (i : nat) : Prog Environnement nat :=
  fun e =>
    let (j, g) := entierAleatoire i (alea e) in
    (Retour j, {| tab := tab e; alea := g |}).

(** [for (let i in tab) { t[i] = tab[i]; }], over the remaining keys. *)
Fixpoint copier (indices : list nat) (t : list (Natif.Case T))
  : Prog Environnement (list (Natif.Case T)) :=
  match indices with
  | [] => retourner t
  | i :: suite =>
      x <- lireTab i ;;
      copier suite (Natif.ecrireIndice t i x)
  end.

(** [[t[i], t[j]] = [t[j], t[i]]]: both reads, then [t[i]], then [t[j]]. *)
Definition echanger (t : list (Natif.Case T)) (i j : nat)
  : list (Natif.Case T) :=
  let tj := Natif.lireIndice t j in
  let ti := Natif.lireIndice t i in
  Natif.ecrireIndice (Natif.ecrireIndice t i tj) j ti.

(** [for (let i = n - 1; i > 0; i--) { ... }], entered with [i]. *)
Fixpoint boucleMelange (i : nat) (t : list (Natif.Case T))
  : Prog Environnement (list (Natif.Case T)) :=
  match i with
  | 0 => retourner t
  | S i' =>
      j <- tirer i ;;
      boucleMelange i' (echanger t i j)
  end.

(** [FabriqueTableauEnJSON.melange(tab)]. *)
Definition melange : Prog Environnement FormatTableau :=
  n <- longueurTab ;;
  indices <- clesTab ;;
  t <- copier indices (Natif.nouveauTableau n) ;;
  t <- boucleMelange (n - 1) t ;;
  taille0 <- longueurTab ;;
  retourner {| taille := Z.of_nat taille0; tableau := t |}.

End Elements.
Arguments taille {T} _.
Arguments tableau {T} _.
Arguments vide {T}.
Arguments enveloppe {T} _.
Arguments tab {T Generateur} _.
Arguments alea {T Generateur} _.
Arguments echanger {T} _ _ _.
Arguments copier {T Generateur} _ _ _.
Arguments boucleMelange {T Generateur} _ _ _ _.
Arguments melange {T Generateur} _ _.
End Tableau.

(** ** The shuffle on arrays held by reference *)

(** [FabriqueTableauEnJSON.melange] once more, with the native arrays
    as objects of a heap: the argument [tab] is a reference, [new
    Array(n)] allocates, the loops write through the reference [t], and
    the format returned holds that reference. [Tableau.melange] above
    computes the cells alone. *)
Module TableauEnTas.
Section Elements.
Variable T : Type.
Variable Generateur : Type.
Variable entierAleatoire : nat -> Generateur -> nat * Generateur.

(** A reference to a native array. *)
Definition Ref : Type := nat.

(** [FormatTableau<T>] as an object: [tableau] refers to an array. *)
Record FormatTableau : Type := {
  taille : Z;
  tableau : Ref
}.

(** The store of [melange]: the heap of the native arrays (the array
    number [r] has the cells [tas !! r]) and the random generator. *)
Record Environnement : Type := {
  tas : list (list (Natif.Case T));
  alea : Generateur
}.

(** Reading in the array of a reference. A reference to no array
    cannot arise in the source; here it throws. *)
Definition consulter {A} (a : Ref) (f : list (Natif.Case T) -> A)
  : Prog Environnement A :=
  fun e =>
    match tas e !! a with
    | Some cases => (Retour (f cases), e)
    | None => (Exception "TypeError", e)
    end.

(** [a.length]. *)
Definition longueur (a : Ref) : Prog Environnement nat :=
  consulter a (fun cases => length cases).

(** [a[i]]. *)
Definition lire (a : Ref) (i : nat) : Prog Environnement (Natif.Case T) :=
  consulter a (fun cases => Natif.lireIndice cases i).

(** The keys of [for (let i in a)]. *)
Definition cles (a : Ref) : Prog Environnement (list nat) :=
  consulter a (fun cases => Natif.cles cases).

(** [a[i] = v]: the array of the reference is updated in place. *)
Definition ecrire (a : Ref) (i : nat) (v : Natif.Case T)
  : Prog Environnement unit :=
  fun e =>
    match tas e !! a with
    | Some cases =>
        (Retour tt,
         {| tas := <[a := Natif.ecrireIndice cases i v]> (tas e);
            alea := alea e |})
    | None => (Exception "TypeError", e)
    end.

(** [new Array(n)]: a new array, at the end of the heap; no array in
    place is touched. *)
Definition allouer (n : nat) : Prog Environnement Ref :=
  fun e =>
    (Retour (length (tas e)),
     {| tas := tas e ++ [Natif.nouveauTableau n]; alea := alea e |}).

(** [entierAleatoire(i)]. *)
Definition tirer (i : nat) : Prog Environnement nat :=
  fun e =>
    let (j, g) := entierAleatoire i (alea e) in
    (Retour j, {| tas := tas e; alea := g |}).

(** [for (let i in tab) { t[i] = tab[i]; }], over the remaining keys. *)
Fixpoint copier (indices : list nat) (tab t : Ref)
  : Prog Environnement unit :=
  match indices with
  | [] => retourner tt
  | i :: suite =>
      x <- lire tab i ;;
      ecrire t i x ;;;
      copier suite tab t
  end.

(** [[t[i], t[j]] = [t[j], t[i]]]: both reads, then [t[i]], then [t[j]]. *)
Definition echanger (t : Ref) (i j : nat) : Prog Environnement unit :=
  tj <- lire t j ;;
  ti <- lire t i ;;
  ecrire t i tj ;;;
  ecrire t j ti.

(** [for (let i = n - 1; i > 0; i--) { ... }], entered with [i]. *)
Fixpoint boucleMelange (i : nat) (t : Ref) : Prog Environnement unit :=
  match i with
  | 0 => retourner tt
  | S i' =>
      j <- tirer i ;;
      echanger t i j ;;;
      boucleMelange i' t
  end.

(** [FabriqueTableauEnJSON.melange(tab)]. *)
Definition melange (tab : Ref) : Prog Environnement FormatTableau :=
  n <- longueur tab ;;
  t <- allouer n ;;
  indices <- cles tab ;;
  copier indices tab t ;;;
  boucleMelange (n - 1) t ;;;
  taille0 <- longueur tab ;;
  retourner {| taille := Z.of_nat taille0; tableau := t |}.

End Elements.
Arguments tas {T Generateur} _.
Arguments alea {T Generateur} _.
Arguments longueur {T Generateur} _ _.
Arguments lire {T Generateur} _ _ _.
Arguments cles {T Generateur} _ _.
Arguments ecrire {T Generateur} _ _ _ _.
Arguments allouer {T Generateur} _ _.
Arguments tirer {T Generateur} _ _ _.
Arguments copier {T Generateur} _ _ _ _.
Arguments echanger {T Generateur} _ _ _ _.
Arguments boucleMelange {T Generateur} _ _ _ _.
Arguments melange {T Generateur} _ _ _.
End TableauEnTas.

(** ** The module functions on array formats: [ModuleTableauEnJSON] *)
Module ModuleTableau.

(** A [FormatTableauMutable] read where a [FormatTableau] is expected:
    TypeScript types are structural, and the module functions are called
    on the state of mutable envelopes. *)
Definition commeTableau {T} (t : TableauMutable.FormatTableauMutable T)
  : Tableau.FormatTableau T :=
  {| Tableau.taille := TableauMutable.taille t;
     Tableau.tableau := TableauMutable.tableau t |}.

(** The positions [forEach] visits, from the position [i] on, with the
    value each holds. A cell [None] is read as a hole here and skipped
    ([forEach] would visit a stored [undefined]); the properties of the
    loops are stated for arrays whose cells all hold values, where the
    two readings agree. *)
Fixpoint entreesDepuis {T} (i : nat) (a : list (Natif.Case T))
  : list (nat * T) :=
  match a with
  | [] => []
  | Some v :: suite => (i, v) :: entreesDepuis (S i) suite
  | None :: suite => entreesDepuis (S i) suite
  end.

Definition entrees {T} (a : list (Natif.Case T)) : list (nat * T) :=
  entreesDepuis 0 a.

(** [iterer(f, t)]: [t.tableau.forEach((v, i, t) => f(i, v, t))]. The
    third argument is optional and no caller reads it. *)
Definition iterer {S T} (f : nat -> T -> Prog S unit)
    (t : Tableau.FormatTableau T) : Prog S unit :=
  pourChaque (entrees (Tableau.tableau t)) (fun iv => f iv.1 iv.2).

(** [valeur(t, index)]: [t.tableau[index]]. *)
Definition valeur {T} (t : Tableau.FormatTableau T) (index : nat)
  : Natif.Case T :=
  Natif.lireIndice (Tableau.tableau t) index.

(** [taille(t)]. *)
Definition taille {T} (t : Tableau.FormatTableau T) : Z := Tableau.taille t.

(** [r[i] = x], on the local array [r] of a function. *)
Definition affecter {S} (i : nat) (x : Natif.Case S)
  : Prog (list (Natif.Case S)) unit :=
  modifier (fun r => Natif.ecrireIndice r i x).


(** [applicationFonctorielle(t, f)]. *)
Definition applicationFonctorielle {T S} (t : Tableau.FormatTableau T)
    (f : T -> Natif.Case S) : Tableau.FormatTableau S :=
  let r := (iterer (fun i v => affecter i (f v)) t []).2 in
  Tableau.enveloppe r.

(** [reduction(t, neutre, op)]: the store of the loop is the local [r]. *)
Definition reduction {T} (t : Tableau.FormatTableau T) (neutre : T)
    (op : T -> T -> T) : T :=
  (iterer (fun _ v => modifier (fun r => op r v)) t neutre).2.

(** [new Array(n)] for a number [n]: a [RangeError] unless [n] is an
    integer from 0 to 2^32 - 1. *)
Definition nouveauTableauDeTaille {S} (n : Z) : Issue (list (Natif.Case S)) :=
  if decide (0 <= n < 2 ^ 32)%Z
  then Retour (Natif.nouveauTableau (Z.to_nat n))
  else Exception "RangeError: Invalid array length".

(** [conversionFormatTableau(conv)(t)]: [r] starts as
    [new Array(t.taille)]. *)
Definition conversionFormatTableau {TIN TEX} (conv : TIN -> Natif.Case TEX)
    (t : Tableau.FormatTableau TIN) : Issue (Tableau.FormatTableau TEX) :=
  match nouveauTableauDeTaille (Tableau.taille t) with
  | Retour r0 =>
      let r := (iterer (fun i v => affecter i (conv v)) t r0).2 in
      Retour (Tableau.enveloppe r)
  | Exception e => Exception e
  end.

End ModuleTableau.

(** ** Immutable array envelopes *)

(** [TableauParEnveloppe<TIN, TEX>]: the state and a conversion applied
    on reading. A conversion is a JavaScript function: it is applied to
    [undefined] too, when a position outside the array is read. *)
Module EnveloppeTableau.
Section Classe.
Variables TIN TEX : Type.

Record TableauParEnveloppe : Type := {
  conversionInEx : Natif.Case TIN -> Natif.Case TEX;
  etat : Tableau.FormatTableau TIN
}.

(** [itererEtat(f)]. *)
Definition itererEtat {S} (this : TableauParEnveloppe)
    (f : nat -> TIN -> Prog S unit) : Prog S unit :=
  ModuleTableau.iterer f (etat this).

(** [iterer(f)]. *)
Definition iterer {S} (this : TableauParEnveloppe)
    (f : nat -> Natif.Case TEX -> Prog S unit) : Prog S unit :=
  itererEtat this (fun i v => f i (conversionInEx this (Some v))).

(** [reduction(neutre, op)]. *)
Definition reduction (this : TableauParEnveloppe) (neutre : TEX)
    (op : TEX -> TEX -> TEX) : TEX :=
  ModuleTableau.reduction
    (ModuleTableau.applicationFonctorielle (etat this)
       (fun v => conversionInEx this (Some v)))
    neutre op.

(** [valeurEtat(i)]. *)
Definition valeurEtat (this : TableauParEnveloppe) (i : nat)
  : Natif.Case TIN :=
  ModuleTableau.valeur (etat this) i.

(** [valeur(index)]. *)
Definition valeur (this : TableauParEnveloppe) (index : nat)
  : Natif.Case TEX :=
  conversionInEx this (valeurEtat this index).

(** [taille()]. *)
Definition taille (this : TableauParEnveloppe) : Z :=
  ModuleTableau.taille (etat this).

(** [estVide()]. *)
Definition estVide (this : TableauParEnveloppe) : bool :=
  (taille this =? 0)%Z.

End Classe.
Arguments conversionInEx {TIN TEX} _ _.
Arguments etat {TIN TEX} _.
Arguments itererEtat {TIN TEX S} _ _.
Arguments iterer {TIN TEX S} _ _.
Arguments reduction {TIN TEX} _ _ _.
Arguments valeurEtat {TIN TEX} _ _.
Arguments valeur {TIN TEX} _ _.
Arguments taille {TIN TEX} _.
Arguments estVide {TIN TEX} _.

(** [application(f)]: the conversions are composed, the state is the
    same. *)
Definition application {TIN TEX S} (this : TableauParEnveloppe TIN TEX)
    (f : Natif.Case TEX -> Natif.Case S) : TableauParEnveloppe TIN S :=
  {| conversionInEx := fun x => f (conversionInEx this x);
     etat := etat this |}.

(** [tableauGeneral(conversionInEx, t)]. *)
Definition tableauGeneral {TIN TEX}
    (conv : Natif.Case TIN -> Natif.Case TEX) (t : list (Natif.Case TIN))
  : TableauParEnveloppe TIN TEX :=
  {| conversionInEx := conv; etat := Tableau.enveloppe t |}.

End EnveloppeTableau.

(** [TableauParEnveloppePlate<TEX>]: the state is read as it is. *)
Module EnveloppePlate.

Record TableauParEnveloppePlate (TEX : Type) : Type := {
  etat : Tableau.FormatTableau TEX
}.
Arguments etat {TEX} _.

(** [iterer(f)]. *)
Definition iterer {TEX S} (this : TableauParEnveloppePlate TEX)
    (f : nat -> TEX -> Prog S unit) : Prog S unit :=
  ModuleTableau.iterer f (etat this).

(** [application(f)]: a new state, computed at once. *)
Definition application {TEX S} (this : TableauParEnveloppePlate TEX)
    (f : Natif.Case TEX -> Natif.Case S) : TableauParEnveloppePlate S :=
  {| etat := ModuleTableau.applicationFonctorielle (etat this)
               (fun v => f (Some v)) |}.

(** [reduction(neutre, op)]. *)
Definition reduction {TEX} (this : TableauParEnveloppePlate TEX)
    (neutre : TEX) (op : TEX -> TEX -> TEX) : TEX :=
  ModuleTableau.reduction (etat this) neutre op.

(** [valeur(i)]. *)
Definition valeur {TEX} (this : TableauParEnveloppePlate TEX) (i : nat)
  : Natif.Case TEX :=
  ModuleTableau.valeur (etat this) i.

(** [taille()]. *)
Definition taille {TEX} (this : TableauParEnveloppePlate TEX) : Z :=
  ModuleTableau.taille (etat this).

(** [estVide()]. *)
Definition estVide {TEX} (this : TableauParEnveloppePlate TEX) : bool :=
  (taille this =? 0)%Z.

(** [tableau(t)]. *)
Definition tableau {TEX} (t : list (Natif.Case TEX))
  : TableauParEnveloppePlate TEX :=
  {| etat := Tableau.enveloppe t |}.

End EnveloppePlate.

(** ** Mutable array envelopes *)

(** [TableauMutableParEnveloppe<TIN, TEX>]. The state of such an
    envelope is a [FormatTableauMutable] object that several envelopes
    may hold: the objects live in a heap and an envelope holds a
    reference. *)
Module EnveloppeMutable.

Record TableauMutableParEnveloppe (TIN TEX : Type) : Type := {
  conversionInEx : Natif.Case TIN -> Natif.Case TEX;
  etat : nat
}.
Arguments conversionInEx {TIN TEX} _ _.
Arguments etat {TIN TEX} _.

(** The heap of the [FormatTableauMutable] objects. *)
Abbreviation Tas TIN := (list (TableauMutable.FormatTableauMutable TIN))
  (only parsing).

(** A program on the state of an envelope, run in the heap: what it
    does to the object stays done when it throws. A reference to no
    object cannot arise in the source; here it throws. *)
Definition surEtat {TIN TEX A} (this : TableauMutableParEnveloppe TIN TEX)
    (prog : Prog (TableauMutable.FormatTableauMutable TIN) A)
  : Prog (Tas TIN) A :=
  fun h =>
    match h !! etat this with
    | Some o => let (issue, o') := prog o in (issue, <[etat this := o']> h)
    | None => (Exception "TypeError", h)
    end.

(** [valeurEtat(i)]. *)
Definition valeurEtat {TIN TEX} (this : TableauMutableParEnveloppe TIN TEX)
    (i : nat) : Prog (Tas TIN) (Natif.Case TIN) :=
  surEtat this
    (fun o => (Retour (ModuleTableau.valeur (ModuleTableau.commeTableau o) i), o)).

(** [valeur(i)]. *)
Definition valeur {TIN TEX} (this : TableauMutableParEnveloppe TIN TEX)
    (i : nat) : Prog (Tas TIN) (Natif.Case TEX) :=
  x <- valeurEtat this i ;;
  retourner (conversionInEx this x).

(** [taille()]. *)
Definition taille {TIN TEX} (this : TableauMutableParEnveloppe TIN TEX)
  : Prog (Tas TIN) Z :=
  surEtat this
    (fun o => (Retour (ModuleTableau.taille (ModuleTableau.commeTableau o)), o)).

(** [estVide()]. *)
Definition estVide {TIN TEX} (this : TableauMutableParEnveloppe TIN TEX)
  : Prog (Tas TIN) bool :=
  n <- taille this ;;
  retourner (n =? 0)%Z.

(** [ajouterEnFin(x)]. *)
Definition ajouterEnFin {TIN TEX} (this : TableauMutableParEnveloppe TIN TEX)
    (x : Natif.Case TIN) : Prog (Tas TIN) unit :=
  surEtat this (TableauMutable.ajouterEnFin x).

(** [retirerEnFin()]. *)
Definition retirerEnFin {TIN TEX} (this : TableauMutableParEnveloppe TIN TEX)
  : Prog (Tas TIN) TIN :=
  surEtat this TableauMutable.retirerEnFin.

(** [application(f)]: the conversions are composed; the new envelope
    holds the very state of this one. *)
Definition application {TIN TEX S} (this : TableauMutableParEnveloppe TIN TEX)
    (f : Natif.Case TEX -> Natif.Case S) : TableauMutableParEnveloppe TIN S :=
  {| conversionInEx := fun x => f (conversionInEx this x);
     etat := etat this |}.

(** [creerTableauMutableVide(conversionInEx)]: the default state is a
    new empty format. *)
Definition creerTableauMutableVide {TIN TEX}
    (conv : Natif.Case TIN -> Natif.Case TEX)
  : Prog (Tas TIN) (TableauMutableParEnveloppe TIN TEX) :=
  fun h =>
    (Retour {| conversionInEx := conv; etat := length h |},
     h ++ [TableauMutable.creerVideMutable]).

(** [creerTableauMutableParCopie(conversionInEx, t)]. *)
Definition creerTableauMutableParCopie {TIN TEX}
    (conv : Natif.Case TIN -> Natif.Case TEX) (t : list (Natif.Case TIN))
  : Prog (Tas TIN) (TableauMutableParEnveloppe TIN TEX) :=
  r <- creerTableauMutableVide conv ;;
  ModuleTableau.iterer (fun c v => ajouterEnFin r (Some v))
    (ModuleTableau.commeTableau (TableauMutable.creerEnveloppeMutable t)) ;;;
  retourner r.

End EnveloppeMutable.

(* ===================================================================== *)
(** * Ring assembler                                                      *)
(* ===================================================================== *)

Module Anneau.

(** Modelled from the spec: the code of the ring assembler is missing;
    this module follows section 4.5 of the specification, which the
    design notes ("Calculs": population, enumeration [EPop], table of
    instructions) outline with the same formulas. The notes list the
    population and the instructions under one range of [i]; the
    specification makes them two steps, and so does this module: the
    receiver of the domain [i] is read in the enumeration of a domain
    [k] that may come after [i], so the population is complete before
    the first instruction is made. *)

(** [NOM : Nat -> Mot binaire]: the binary notation of a natural. *)
Fixpoint chiffres (p : positive) (suite : string) : string :=
  match p with
  | xH => String "1"%char suite
  | xO q => chiffres q (String "0"%char suite)
  | xI q => chiffres q (String "1"%char suite)
  end.

Definition NOM (n : nat) : string :=
  match N.of_nat n with
  | N0 => "0"
  | Npos p => chiffres p ""
  end.

(** Modelled from the spec: a user, [{ id, name }]. *)
Record Utilisateur : Type := {
  ID : Identifiant utilisateur;
  nom : string
}.

(** Modelled from the spec: an instruction,
    [{ senderDomain, senderUser, receiverDomain, receiverUser, content }]. *)
Record Consigne : Type := {
  domaineEmetteur : Identifiant domaine;
  utilisateurEmetteur : Identifiant utilisateur;
  domaineDestinataire : Identifiant domaine;
  utilisateurDestinataire : Identifiant utilisateur;
  contenu : string
}.

(** Modelled from the spec: the inputs of the assembler. [ND] and [NU]
    are the two parameters; the enumeration [ED] of the domains, the
    identifier derived from a position [(i, j)] and the content derived
    from it are fixed by the scenario and left open by the specification. *)
Record Parametres : Type := {
  ND : nat;
  NU : nat -> nat;
  ED : nat -> Identifiant domaine;
  identifiant : nat -> nat -> Identifiant utilisateur;
  message : nat -> nat -> string
}.

(** Modelled from the spec: the stores owned by one assembly: the two
    populations per domain, the transient enumeration [EPop] and the
    table of instructions keyed by (domain, user). *)
Record Assemblage : Type := {
  popAConnecter : gmap (Identifiant domaine)
                       (gmap (Identifiant utilisateur) Utilisateur);
  popConnectee : gmap (Identifiant domaine)
                      (gmap (Identifiant utilisateur) Utilisateur);
  EPop : gmap (Identifiant domaine) (list Utilisateur);
  consignes : gmap (Identifiant domaine * Identifiant utilisateur) Consigne
}.

(** Modelled from the spec: before assembly every store is empty. *)
Definition assemblageVide : Assemblage :=
  {| popAConnecter := ∅; popConnectee := ∅; EPop := ∅; consignes := ∅ |}.

(** Modelled from the spec: insertion of a user in a population table
    (an existing binding of the identifier is replaced). *)
Definition inscrire (d : Identifiant domaine) (u : Utilisateur)
    (pop : gmap (Identifiant domaine)
                (gmap (Identifiant utilisateur) Utilisateur))
  : gmap (Identifiant domaine) (gmap (Identifiant utilisateur) Utilisateur) :=
  <[d := <[ID u := u]> (default ∅ (pop !! d))]> pop.

(** Modelled from the spec: the user becomes the next item of the
    enumeration of its domain. *)
Definition enumerer (d : Identifiant domaine) (u : Utilisateur)
    (e : gmap (Identifiant domaine) (list Utilisateur))
  : gmap (Identifiant domaine) (list Utilisateur) :=
  <[d := default [] (e !! d) ++ [u]]> e.

Section Calculs.
Variable p : Parametres.

(** Modelled from the spec: step 2, the user at position [(i, j)]. *)
Definition creerUtilisateur (i j : nat) : Utilisateur :=
  {| ID := identifiant p i j; nom := NOM j |}.

(** Modelled from the spec: step 2, insertion in [toConnect] of the
    domain [ED(i)]. *)
Definition ajouterDansPopulation (i : nat) (u : Utilisateur)
  : Prog Assemblage unit :=
  modifier (fun a => {| popAConnecter := inscrire (ED p i) u (popAConnecter a);
                        popConnectee := popConnectee a;
                        EPop := EPop a;
                        consignes := consignes a |}).

(** Modelled from the spec: step 2, record in [EPop(ED(i))]. *)
Definition ajouterDansEnumeration (i : nat) (u : Utilisateur)
  : Prog Assemblage unit :=
  modifier (fun a => {| popAConnecter := popAConnecter a;
                        popConnectee := popConnectee a;
                        EPop := enumerer (ED p i) u (EPop a);
                        consignes := consignes a |}).

(** Modelled from the spec: step 2 for one domain. *)
Definition peuplerDomaine (i : nat) : Prog Assemblage unit :=
  pourChaque (seq 0 (NU p i)) (fun j =>
    let u := creerUtilisateur i j in
    ajouterDansPopulation i u ;;;
    ajouterDansEnumeration i u).

(** Modelled from the spec: step 2. *)
Definition peupler : Prog Assemblage unit :=
  pourChaque (seq 0 (ND p)) peuplerDomaine.

(** Modelled from the spec: [EPop(ED(i))(j)]; an index out of range is a
    contract violation and fails fast. *)
Definition lireEnumeration (i j : nat) : Prog Assemblage Utilisateur :=
  fun a =>
    match EPop a !! ED p i ≫= (.!! j) with
    | Some u => (Retour u, a)
    | None => (Exception "index hors de l'enumeration", a)
    end.

(** Modelled from the spec: the domain opposite [i] on the ring,
    [k = (i + ND div 2) mod ND], the division truncating. *)
Definition oppose (i : nat) : nat := (i + ND p / 2) mod ND p.

(** Modelled from the spec: step 3, the instruction of position [(i, j)];
    a receiver domain without users is a contract violation and fails
    fast with a domain-configuration error. *)
Definition creerConsigne (i j : nat) : Prog Assemblage Consigne :=
  let k := oppose i in
  if decide (NU p k = 0) then lever "erreur de configuration du domaine"
  else
    emetteur <- lireEnumeration i j ;;
    destinataire <- lireEnumeration k ((i + j) mod NU p k) ;;
    retourner {| domaineEmetteur := ED p i;
                 utilisateurEmetteur := ID emetteur;
                 domaineDestinataire := ED p k;
                 utilisateurDestinataire := ID destinataire;
                 contenu := message p i j |}.

(** Modelled from the spec: step 4, insertion in the table keyed by
    (sender domain, sender user). *)
Definition ajouterConsigne (c : Consigne) : Prog Assemblage unit :=
  modifier (fun a => {| popAConnecter := popAConnecter a;
                        popConnectee := popConnectee a;
                        EPop := EPop a;
                        consignes := <[(domaineEmetteur c, utilisateurEmetteur c) := c]>
                                       (consignes a) |}).

(** Modelled from the spec: steps 3 and 4 for one domain. *)
Definition genererDomaine (i : nat) : Prog Assemblage unit :=
  pourChaque (seq 0 (NU p i)) (fun j =>
    c <- creerConsigne i j ;;
    ajouterConsigne c).

(** Modelled from the spec: steps 3 and 4. *)
Definition generer : Prog Assemblage unit :=
  pourChaque (seq 0 (ND p)) genererDomaine.

(** Modelled from the spec: the assembler, run on empty stores: the
    complete population, then the instructions. *)
Definition assembleRing : Issue unit * Assemblage :=
  (peupler ;;; generer) assemblageVide.

End Calculs.

(** The users assembled for the domain at position [i]. *)
Definition population (a : Assemblage) (p : Parametres) (i : nat)
  : gmap (Identifiant utilisateur) Utilisateur :=
  default ∅ (popAConnecter a !! ED p i).

(** Number of users over the domains of the ring. *)
Definition nombreUtilisateurs (a : Assemblage) (p : Parametres) : nat :=
  sum_list_with (fun i => size (population a p i)) (seq 0 (ND p)).

(** Number of instructions in the table. *)
Definition nombreConsignes (a : Assemblage) : nat := size (consignes a).

(** The (sender domain, receiver domain) pairs over the instructions of
    the table. *)
Definition pairesDomaines (a : Assemblage)
  : gset (Identifiant domaine * Identifiant domaine) :=
  map_to_set (fun _ c => (domaineEmetteur c, domaineDestinataire c))
             (consignes a).

(** The parameters of a scenario given by the list of the numbers of
    users, [NU = [n0, n1, ...]] and [ND] its length. *)
Definition scenario (nus : list nat) (ed : nat -> Identifiant domaine)
    (idu : nat -> nat -> Identifiant utilisateur)
    (msg : nat -> nat -> string) : Parametres :=
  {| ND := length nus;
     NU := fun i => default 0 (nus !! i);
     ED := ed;
     identifiant := idu;
     message := msg |}.

End Anneau.

(* ===================================================================== *)
(** * Vocabulary of the statements                                        *)
(* ===================================================================== *)

(** ** Messages *)

(** Two message states agree on every field but [type]. *)
Definition memesChampsHorsType {D} (a b : Message.FormatMessageTchat D) : Prop :=
  Message.ID a = Message.ID b
  /\ Message.ID_emetteur a = Message.ID_emetteur b
  /\ Message.ID_destinataire a = Message.ID_destinataire b
  /\ Message.contenu a = Message.contenu b
  /\ Message.date a = Message.date b.

(** Two message states agree on every field but [type] and [contenu]. *)
Definition memesChampsHorsTypeEtContenu {D}
    (a b : Message.FormatMessageTchat D) : Prop :=
  Message.ID a = Message.ID b
  /\ Message.ID_emetteur a = Message.ID_emetteur b
  /\ Message.ID_destinataire a = Message.ID_destinataire b
  /\ Message.date a = Message.date b.

(** Run from the world [w], the program returns the reference [r] of a
    new message object of state [e] and leaves the world [w']: [r] named
    no object of [w], and every object of [w] is in [w'] with the state
    it had (nothing is mutated). *)
Definition creeMessage {D} (w : Message.Monde D)
    (prog : Prog (Message.Monde D) Message.Ref) (r : Message.Ref)
    (e : Message.FormatMessageTchat D) (w' : Message.Monde D) : Prop :=
  prog w = (Retour r, w')
  /\ Message.tas w !! r = None
  /\ Message.tas w' !! r = Some e
  /\ (forall r0 o, Message.tas w !! r0 = Some o -> Message.tas w' !! r0 = Some o).

(** The state [transit] encloses, from the state it reads. *)
Definition etatTransit {D} (e : Message.FormatMessageTchat D)
  : Message.FormatMessageTchat D :=
  {| Message.ID := Message.ID e;
     Message.ID_emetteur := Message.ID_emetteur e;
     Message.ID_destinataire := Message.ID_destinataire e;
     Message.type := Message.TRANSIT;
     Message.contenu := Message.contenu e;
     Message.date := Message.date e |}.

(** The state [avecAccuseReception] encloses, from the state it reads. *)
Definition etatAccuse {D} (e : Message.FormatMessageTchat D)
  : Message.FormatMessageTchat D :=
  {| Message.ID := Message.ID e;
     Message.ID_emetteur := Message.ID_emetteur e;
     Message.ID_destinataire := Message.ID_destinataire e;
     Message.type := Message.AR;
     Message.contenu := Message.contenu e;
     Message.date := Message.date e |}.

(** A world with one [COM] message object, for concrete runs. *)
Definition messageExemple : Message.FormatMessageTchat nat :=
  {| Message.ID := {| val := "m0" |};
     Message.ID_emetteur := {| val := "s1" |};
     Message.ID_destinataire := {| val := "s2" |};
     Message.type := Message.COM;
     Message.contenu := "bonjour";
     Message.date := 7 |}.

Definition mondeExemple : Message.Monde nat :=
  {| Message.tas := [messageExemple]; Message.tic := 0 |}.

(** ** Arrays *)

(** The call threw. *)
Definition aLeve {A} (i : Issue A) : Prop :=
  match i with Exception _ => True | Retour _ => False end.

(** A one-element array satisfying the invariant of the format, whose
    only cell holds [undefined] (element type [number | undefined]). *)
Definition tableauUnIndefini : TableauMutable.FormatTableauMutable nat :=
  TableauMutable.creerEnveloppeMutable [None].

(** Writing, at each of the given positions, the cell another array has
    there. *)
Definition recopier {T} (source : list (Natif.Case T)) (indices : list nat)
    (t : list (Natif.Case T)) : list (Natif.Case T) :=
  foldl (fun t i => Natif.ecrireIndice t i (Natif.lireIndice source i))
        t indices.

(** A generator scripted by the list of its draws, each capped by the
    bound asked for. *)
Definition tirageScripte (i : nat) (g : list nat) : nat * list nat :=
  match g with
  | [] => (0, [])
  | x :: suite => (Nat.min x i, suite)
  end.

(** ** Ring assembler *)

(** Inserting the bindings of a list in order, from the empty table. *)
Definition inserer `{Countable K} {V : Type} (t : gmap K V) (kv : K * V)
  : gmap K V :=
  <[kv.1 := kv.2]> t.

Section VocabulaireAnneau.
Variable p : Anneau.Parametres.

(** The users of the domain at position [i], in the order of creation. *)
Definition utilisateurs (i : nat) : list Anneau.Utilisateur :=
  Anneau.creerUtilisateur p i <$> seq 0 (Anneau.NU p i).

(** The population table of the domain at position [i]. *)
Definition tableUtilisateurs (i : nat)
  : gmap (Identifiant utilisateur) Anneau.Utilisateur :=
  foldl inserer ∅ ((fun u => (Anneau.ID u, u)) <$> utilisateurs i).

(** The effect of step 2 for one user. *)
Definition effetUtilisateur (i : nat) (a : Anneau.Assemblage) (j : nat)
  : Anneau.Assemblage :=
  let u := Anneau.creerUtilisateur p i j in
  {| Anneau.popAConnecter :=
       Anneau.inscrire (Anneau.ED p i) u (Anneau.popAConnecter a);
     Anneau.popConnectee := Anneau.popConnectee a;
     Anneau.EPop := Anneau.enumerer (Anneau.ED p i) u (Anneau.EPop a);
     Anneau.consignes := Anneau.consignes a |}.

(** The effect of step 2 for one domain. *)
Definition effetDomaine (a : Anneau.Assemblage) (i : nat)
  : Anneau.Assemblage :=
  foldl (effetUtilisateur i) a (seq 0 (Anneau.NU p i)).

(** The stores after step 2 for the first [n] domains. *)
Definition etatPeuple (n : nat) : Anneau.Assemblage :=
  foldl effetDomaine Anneau.assemblageVide (seq 0 n).

(** The enumeration [ED] names each domain of the ring once. *)
Definition enumerationInjective : Prop :=
  forall i i', i < Anneau.ND p -> i' < Anneau.ND p ->
    Anneau.ED p i = Anneau.ED p i' -> i = i'.

(** The users of a domain have identifiers of their own. *)
Definition identifiantsDistincts : Prop :=
  forall i j j', i < Anneau.ND p ->
    j < Anneau.NU p i -> j' < Anneau.NU p i ->
    Anneau.identifiant p i j = Anneau.identifiant p i j' -> j = j'.

(** Every domain of the ring has a user. *)
Definition domainesPeuples : Prop :=
  forall i, i < Anneau.ND p -> 0 < Anneau.NU p i.

(** The key of the instruction of the position [(i, j)]. *)
Definition cle (ij : nat * nat)
  : Identifiant domaine * Identifiant utilisateur :=
  (Anneau.ED p ij.1, Anneau.identifiant p ij.1 ij.2).

(** The instruction expected for the sender position [(i, j)]: the
    receiver is the user of index [(i + j) mod NU(k)] of the domain
    [k = (i + ND div 2) mod ND]. *)
Definition consigneAttendue (ij : nat * nat) : Anneau.Consigne :=
  let k := Anneau.oppose p ij.1 in
  {| Anneau.domaineEmetteur := Anneau.ED p ij.1;
     Anneau.utilisateurEmetteur := Anneau.identifiant p ij.1 ij.2;
     Anneau.domaineDestinataire := Anneau.ED p k;
     Anneau.utilisateurDestinataire :=
       Anneau.identifiant p k ((ij.1 + ij.2) mod Anneau.NU p k);
     Anneau.contenu := Anneau.message p ij.1 ij.2 |}.

(** The positions of the users, domain after domain. *)
Definition positions : list (nat * nat) :=
  seq 0 (Anneau.ND p) ≫= fun i => pair i <$> seq 0 (Anneau.NU p i).

(** The effect of steps 3 and 4 for one position. *)
Definition effetConsigne (a : Anneau.Assemblage) (ij : nat * nat)
  : Anneau.Assemblage :=
  {| Anneau.popAConnecter := Anneau.popAConnecter a;
     Anneau.popConnectee := Anneau.popConnectee a;
     Anneau.EPop := Anneau.EPop a;
     Anneau.consignes :=
       inserer (Anneau.consignes a) (cle ij, consigneAttendue ij) |}.

(** The stores hold the enumeration of every domain of the ring. *)
Definition enumerationComplete (a : Anneau.Assemblage) : Prop :=
  forall i, i < Anneau.ND p ->
    Anneau.EPop a !! Anneau.ED p i = Some (utilisateurs i).

(** The stores the assembler leaves. *)
Definition etatAssemble : Anneau.Assemblage :=
  foldl effetConsigne (etatPeuple (Anneau.ND p)) positions.

End VocabulaireAnneau.

Section VocabulaireScenarios.
Variable ed : nat -> Identifiant domaine.
Variable idu : nat -> nat -> Identifiant utilisateur.
Variable msg : nat -> nat -> string.

(** [ND = 5], [NU = [2,1,1,1,1]]. *)
Definition anneauCinq : Anneau.Parametres :=
  Anneau.scenario [2; 1; 1; 1; 1] ed idu msg.

(** [ND = 4], [NU = [1,1,1,1]]. *)
Definition anneauQuatre : Anneau.Parametres :=
  Anneau.scenario [1; 1; 1; 1] ed idu msg.

End VocabulaireScenarios.

(** Domain [i] is named after the binary notation of [i]. *)
Definition EDbinaire (i : nat) : Identifiant domaine :=
  {| val := "DOM-" +:+ Anneau.NOM i |}.

(** The identifier of the user [j] of the domain [i], from [(i, j)]. *)
Definition identifiantBinaire (i j : nat) : Identifiant utilisateur :=
  {| val := "UTIL-" +:+ Anneau.NOM i +:+ "-" +:+ Anneau.NOM j |}.

(** A content computed from [(i, j)]. *)
Definition messageBinaire (i j : nat) : string :=
  Anneau.NOM i +:+ "," +:+ Anneau.NOM j.

(** The number a binary word denotes, read from the left after the
    digits already read. *)
Fixpoint valeurBinaire (lu : N) (mot : string) : N :=
  match mot with
  | EmptyString => lu
  | String c suite =>
      valeurBinaire (2 * lu + (if Ascii.eqb c "1" then 1 else 0)) suite
  end.

(** The number read after [lu] when the digits of [p] follow. *)
Fixpoint prolonger (lu : N) (p : positive) : N :=
  match p with
  | xH => 2 * lu + 1
  | xO q => 2 * prolonger lu q
  | xI q => 2 * prolonger lu q + 1
  end.

Definition anneauCinqBinaire : Anneau.Parametres :=
  anneauCinq EDbinaire identifiantBinaire messageBinaire.



Definition anneauQuatreBinaire : Anneau.Parametres :=
  anneauQuatre EDbinaire identifiantBinaire messageBinaire.


(** ** Sequences of calls *)

(** [ajouterEnFin(t, v)] for each value of a list, in order. *)
Definition ajouterTous {T} (vs : list T)
  : Prog (TableauMutable.FormatTableauMutable T) unit :=
  pourChaque vs (fun v => TableauMutable.ajouterEnFin (Some v)).

(** [retirerEnFin(t)] called [n] times: the values returned, in the
    order of the calls. *)
Fixpoint retirerFois {T} (n : nat)
  : Prog (TableauMutable.FormatTableauMutable T) (list T) :=
  match n with
  | 0 => retourner []
  | S k =>
      v <- TableauMutable.retirerEnFin ;;
      vs <- retirerFois k ;;
      retourner (v :: vs)
  end.

(** A generator that draws the bound itself. *)
Definition tirageIdentite (i : nat) (g : unit) : nat * unit := (i, g).

(** A generator that draws the same number every time. *)
Definition tirageConstant (c : nat) (i : nat) (g : unit) : nat * unit :=
  (c, g).

(** A generator scripted by the list of its draws, as they are. *)
Definition tirageBrut (i : nat) (g : list nat) : nat * list nat :=
  match g with
  | [] => (0, [])
  | x :: suite => (x, suite)
  end.

(** ** Formats and envelopes for concrete runs *)

(** A format of three values whose [taille] is not its length. *)
Definition formatExemple : Tableau.FormatTableau nat :=
  {| Tableau.taille := 7; Tableau.tableau := [Some 1; Some 2; Some 3] |}.

(** A conversion that doubles the values and keeps [undefined]. *)
Definition doubler (c : Natif.Case nat) : Natif.Case nat :=
  match c with
  | Some v => Some (v * 2)
  | None => None
  end.

(** A heap with one mutable format, and an envelope on it. *)
Definition tasExemple : list (TableauMutable.FormatTableauMutable nat) :=
  [TableauMutable.creerEnveloppeMutable [Some 1; Some 2]].

Definition enveloppeExemple : EnveloppeMutable.TableauMutableParEnveloppe nat nat :=
  {| EnveloppeMutable.conversionInEx := fun x => x;
     EnveloppeMutable.etat := 0 |}.

(* ===================================================================== *)
(** * Properties of programs                                              *)
(* ===================================================================== *)

Section LoisProgrammes.
Context {S A B : Type}.

Lemma lier_retour (m : Prog S A) (k : A -> Prog S B) s a s' :
  m s = (Retour a, s') -> lier m k s = k a s'.
Proof. intros H. unfold lier. rewrite H. reflexivity. Qed.

Lemma lier_exception (m : Prog S A) (k : A -> Prog S B) s e s' :
  m s = (Exception e, s') -> lier m k s = (Exception e, s').
Proof. intros H. unfold lier. rewrite H. reflexivity. Qed.

End LoisProgrammes.

(** A loop whose body never throws on the stores satisfying an invariant
    is the left fold of the effect of its body. *)
Lemma pourChaque_foldl {S A} (P : S -> Prop) (corps : A -> Prog S unit)
    (f : S -> A -> S) (l : list A) :
  (forall x s, x ∈ l -> P s -> corps x s = (Retour tt, f s x) /\ P (f s x)) ->
  forall s, P s ->
    pourChaque l corps s = (Retour tt, foldl f s l) /\ P (foldl f s l).
Proof.
  induction l as [|x l IH]; intros Hcorps s Hs; simpl.
  - split; [reflexivity | assumption].
  - destruct (Hcorps x s) as [Hx HP]; [left | assumption |].
    rewrite (lier_retour _ _ _ _ _ Hx).
    apply IH; [| assumption].
    intros y s0 Hy. apply Hcorps. right. assumption.
Qed.

(* ===================================================================== *)
(** * Messages: derivations and error replies                             *)
(* ===================================================================== *)

Section ProprietesMessages.
Variable D : Type.
Implicit Types (w : Message.Monde D) (e : Message.FormatMessageTchat D).

Lemma valeur_objet w r e :
  Message.tas w !! r = Some e -> Message.valeur r w = (Retour e, w).
Proof. intros H. unfold Message.valeur. rewrite H. reflexivity. Qed.

Lemma nouveau_cree w e :
  creeMessage w (Message.nouveau e) (length (Message.tas w)) e
    {| Message.tas := Message.tas w ++ [e]; Message.tic := Message.tic w |}.
Proof.
  unfold creeMessage, Message.nouveau; simpl. split_and!.
  - reflexivity.
  - apply lookup_ge_None. lia.
  - rewrite lookup_app_r by lia. rewrite Nat.sub_diag. reflexivity.
  - intros r0 o Hr0. apply lookup_app_l_Some. assumption.
Qed.

(** Reading the state of an object and enclosing a state computed from
    it in a new object. *)
Lemma derivation_cree w (m : Message.Ref) e
    (f : Message.FormatMessageTchat D -> Message.FormatMessageTchat D) :
  Message.tas w !! m = Some e ->
  creeMessage w (msg <- Message.valeur m ;; Message.nouveau (f msg))
    (length (Message.tas w)) (f e)
    {| Message.tas := Message.tas w ++ [f e]; Message.tic := Message.tic w |}.
Proof.
  intros Hm. destruct (nouveau_cree w (f e)) as (Hrun & Hreste).
  split; [| exact Hreste].
  rewrite (lier_retour _ _ _ _ _ (valeur_objet w m e Hm)). exact Hrun.
Qed.

Lemma creeMessage_objet w prog r e w' :
  creeMessage w prog r e w' -> Message.tas w' !! r = Some e.
Proof. intros (_ & _ & H & _). exact H. Qed.

Lemma creeMessage_cadre w prog r e w' r0 o :
  creeMessage w prog r e w' ->
  Message.tas w !! r0 = Some o -> Message.tas w' !! r0 = Some o.
Proof. intros (_ & _ & _ & H). apply H. Qed.

Lemma transit_cree w (m : Message.Ref) e :
  Message.tas w !! m = Some e ->
  creeMessage w (Message.transit m) (length (Message.tas w)) (etatTransit e)
    {| Message.tas := Message.tas w ++ [etatTransit e];
       Message.tic := Message.tic w |}.
Proof. intros Hm. exact (derivation_cree w m e etatTransit Hm). Qed.

Lemma avecAccuseReception_cree w (m : Message.Ref) e :
  Message.tas w !! m = Some e ->
  creeMessage w (Message.avecAccuseReception m) (length (Message.tas w))
    (etatAccuse e)
    {| Message.tas := Message.tas w ++ [etatAccuse e];
       Message.tic := Message.tic w |}.
Proof. intros Hm. exact (derivation_cree w m e etatAccuse Hm). Qed.

(** C1. For every message object [m] (of state [e] in the world [w]),
    [transit(m)] and [avecAccuseReception(m)] each return a new message
    object whose [ID], [ID_emetteur], [ID_destinataire], [contenu] and
    [date] are those of [m] and whose [type] is [TRANSIT], respectively
    [AR]; no object of the world, [m] included, is mutated. Calling
    twice changes nothing outside [type]: a second call on [m] makes an
    object of the same state as the first, and a call on the result of
    the first makes an object of that state again. *)
Theorem transit_et_accuse_reception_derivent w (m : Message.Ref) e :
  Message.tas w !! m = Some e ->
  (exists r1 e1 w1,
      creeMessage w (Message.transit m) r1 e1 w1
      /\ memesChampsHorsType e1 e /\ Message.type e1 = Message.TRANSIT
      /\ Message.tas w1 !! m = Some e
      /\ (exists r2 w2, creeMessage w1 (Message.transit m) r2 e1 w2)
      /\ (exists r2 e2 w2,
            creeMessage w1 (Message.transit r1) r2 e2 w2
            /\ memesChampsHorsType e2 e1 /\ e2 = e1))
  /\ (exists r1 e1 w1,
      creeMessage w (Message.avecAccuseReception m) r1 e1 w1
      /\ memesChampsHorsType e1 e /\ Message.type e1 = Message.AR
      /\ Message.tas w1 !! m = Some e
      /\ (exists r2 w2, creeMessage w1 (Message.avecAccuseReception m) r2 e1 w2)
      /\ (exists r2 e2 w2,
            creeMessage w1 (Message.avecAccuseReception r1) r2 e2 w2
            /\ memesChampsHorsType e2 e1 /\ e2 = e1)).
Proof.
  intros Hm. split.
  - pose proof (transit_cree w m e Hm) as H1.
    pose proof (creeMessage_cadre _ _ _ _ _ _ _ H1 Hm) as Hm1.
    pose proof (transit_cree _ _ _ Hm1) as H1'.
    pose proof (transit_cree _ _ _ (creeMessage_objet _ _ _ _ _ H1)) as H2.
    eexists _, _, _. split; [exact H1 |].
    split; [repeat split |]. split; [reflexivity |].
    split; [exact Hm1 |].
    split; [eexists _, _; exact H1' |].
    eexists _, _, _. split; [exact H2 |].
    split; [repeat split | reflexivity].
  - pose proof (avecAccuseReception_cree w m e Hm) as H1.
    pose proof (creeMessage_cadre _ _ _ _ _ _ _ H1 Hm) as Hm1.
    pose proof (avecAccuseReception_cree _ _ _ Hm1) as H1'.
    pose proof (avecAccuseReception_cree _ _ _
                  (creeMessage_objet _ _ _ _ _ H1)) as H2.
    eexists _, _, _. split; [exact H1 |].
    split; [repeat split |]. split; [reflexivity |].
    split; [exact Hm1 |].
    split; [eexists _, _; exact H1' |].
    eexists _, _, _. split; [exact H2 |].
    split; [repeat split | reflexivity].
Qed.

(** C2. For every message object [original] (of state [e] in the world
    [w]), every error code and every error text,
    [messageRetourErreur(original, codeErreur, messageErreur)] returns a
    new message object whose [ID], [ID_emetteur], [ID_destinataire] and
    [date] are those of [original], whose [type] is the code and whose
    [contenu] is the text; the original is not mutated. *)
Theorem messageRetourErreur_conserve w (original : Message.Ref) e
    (codeErreur : Message.TypeMessageTchat) (messageErreur : string) :
  Message.tas w !! original = Some e ->
  exists r e' w',
    creeMessage w (Message.messageRetourErreur original codeErreur messageErreur)
      r e' w'
    /\ memesChampsHorsTypeEtContenu e' e
    /\ Message.type e' = codeErreur
    /\ Message.contenu e' = messageErreur
    /\ Message.tas w' !! original = Some e.
Proof.
  intros Hm.
  pose proof (nouveau_cree w
    {| Message.ID := Message.ID e;
       Message.ID_emetteur := Message.ID_emetteur e;
       Message.ID_destinataire := Message.ID_destinataire e;
       Message.type := codeErreur;
       Message.contenu := messageErreur;
       Message.date := Message.date e |}) as Hcree.
  eexists _, _, _. split; [| split; [| split; [| split]]].
  - destruct Hcree as (Hrun & Hreste). split; [| exact Hreste].
    unfold Message.messageRetourErreur.
    do 4 rewrite (lier_retour _ _ _ _ _ (valeur_objet w original e Hm)).
    exact Hrun.
  - repeat split.
  - reflexivity.
  - reflexivity.
  - exact (creeMessage_cadre _ _ _ _ _ _ _ Hcree Hm).
Qed.

(** C7. For every message identifier [id], every vertex identifier
    [idEmetteur] and every error text, run in any world,
    [messageErreurConnexion(id, idEmetteur, messageErreur)] returns a new
    message object of type [ERREUR_CONNEXION] whose sender and receiver
    are both [idEmetteur]; it carries [id], the text and the date read
    from the clock. *)
Theorem messageErreurConnexion_adresse_a_soi (horloge : nat -> D) w
    (id : Identifiant message) (idEmetteur : Identifiant sommet)
    (messageErreur : string) :
  exists r e w',
    creeMessage w
      (Message.messageErreurConnexion horloge id idEmetteur messageErreur)
      r e w'
    /\ Message.type e = Message.ERREUR_CONNEXION
    /\ Message.ID_emetteur e = idEmetteur
    /\ Message.ID_destinataire e = idEmetteur
    /\ Message.ID e = id
    /\ Message.contenu e = messageErreur
    /\ Message.date e = horloge (Message.tic w).
Proof.
  pose proof (nouveau_cree
    {| Message.tas := Message.tas w; Message.tic := S (Message.tic w) |}
    {| Message.ID := id;
       Message.ID_emetteur := idEmetteur;
       Message.ID_destinataire := idEmetteur;
       Message.type := Message.ERREUR_CONNEXION;
       Message.contenu := messageErreur;
       Message.date := horloge (Message.tic w) |}) as Hcree.
  eexists _, _, _. split.
  - destruct Hcree as (Hrun & Hfrais & Hobj & Hcadre).
    split; [| split; [exact Hfrais | split; [exact Hobj | exact Hcadre]]].
    unfold Message.messageErreurConnexion.
    erewrite lier_retour; [exact Hrun | reflexivity].
  - repeat split.
Qed.

End ProprietesMessages.

(** Witness of C1: the object 0 of [mondeExemple] is derived. *)
Lemma transit_et_accuse_reception_derivent_temoin :
  Message.tas mondeExemple !! 0 = Some messageExemple
  /\ (exists r1 e1 w1,
        creeMessage mondeExemple (Message.transit 0) r1 e1 w1
        /\ memesChampsHorsType e1 messageExemple
        /\ Message.type e1 = Message.TRANSIT)
  /\ (exists r1 e1 w1,
        creeMessage mondeExemple (Message.avecAccuseReception 0) r1 e1 w1
        /\ memesChampsHorsType e1 messageExemple
        /\ Message.type e1 = Message.AR).
Proof.
  split; [reflexivity |].
  destruct (transit_et_accuse_reception_derivent nat mondeExemple 0
              messageExemple eq_refl)
    as [(r1 & e1 & w1 & H1 & Hc1 & Ht1 & _) (r2 & e2 & w2 & H2 & Hc2 & Ht2 & _)].
  split.
  - exists r1, e1, w1. split; [exact H1 | split; [exact Hc1 | exact Ht1]].
  - exists r2, e2, w2. split; [exact H2 | split; [exact Hc2 | exact Ht2]].
Defined.

(** Witness of C2: an [ERREUR_DEST] reply to the object 0 of
    [mondeExemple]. *)
Lemma messageRetourErreur_conserve_temoin :
  Message.tas mondeExemple !! 0 = Some messageExemple
  /\ exists r e' w',
      creeMessage mondeExemple
        (Message.messageRetourErreur 0 Message.ERREUR_DEST "destinataire inconnu")
        r e' w'
      /\ memesChampsHorsTypeEtContenu e' messageExemple
      /\ Message.type e' = Message.ERREUR_DEST
      /\ Message.contenu e' = "destinataire inconnu"
      /\ Message.tas w' !! 0 = Some messageExemple.
Proof.
  split; [reflexivity |].
  apply (messageRetourErreur_conserve nat mondeExemple 0 messageExemple).
  reflexivity.
Defined.

(** The run of the witness, computed: the derived object is the second
    of the heap, the first is as it was. *)
Example transit_exemple :
  Message.transit 0 mondeExemple
  = (Retour 1,
     {| Message.tas :=
          [messageExemple;
           {| Message.ID := {| val := "m0" |};
              Message.ID_emetteur := {| val := "s1" |};
              Message.ID_destinataire := {| val := "s2" |};
              Message.type := Message.TRANSIT;
              Message.contenu := "bonjour";
              Message.date := 7 |}];
        Message.tic := 0 |}).
Proof. reflexivity. Qed.

(** A connection error, computed: the clock is read once. *)
Example messageErreurConnexion_exemple :
  Message.messageErreurConnexion (fun n => 100 + n) {| val := "m9" |}
    {| val := "s1" |} "deja connecte" mondeExemple
  = (Retour 1,
     {| Message.tas :=
          [messageExemple;
           {| Message.ID := {| val := "m9" |};
              Message.ID_emetteur := {| val := "s1" |};
              Message.ID_destinataire := {| val := "s1" |};
              Message.type := Message.ERREUR_CONNEXION;
              Message.contenu := "deja connecte";
              Message.date := 100 |}];
        Message.tic := 1 |}).
Proof. reflexivity. Qed.

(* ===================================================================== *)
(** * Configurations                                                      *)
(* ===================================================================== *)

Section ProprietesConfigurations.
Variables (FormatTableIdentification FormatDateFr : Type).

(** C8. For every node [n] and every date [d],
    [configurationDeNoeudTchat(n, d)] is defined (no node is refused)
    and encloses a configuration whose [centre] and [voisins] are those
    of [n] and whose [date] is [d]; [noeud()] of that configuration
    encloses a node equal to [n], so with the same [centre] and
    [voisins]. *)
Theorem configurationDeNoeudTchat_aller_retour
    (n : Noeud.FormatNoeudTchat FormatTableIdentification) (d : FormatDateFr) :
  let c := Configuration.configurationDeNoeudTchat n d in
  Configuration.configurationInitiale (Configuration.valeur c) = ZERO
  /\ Configuration.centre (Configuration.valeur c) = Noeud.centre n
  /\ Configuration.voisins (Configuration.valeur c) = Noeud.voisins n
  /\ Configuration.date (Configuration.valeur c) = d
  /\ Noeud.centre (Noeud.valeur (Configuration.noeud c)) = Noeud.centre n
  /\ Noeud.voisins (Noeud.valeur (Configuration.noeud c)) = Noeud.voisins n
  /\ Noeud.valeur (Configuration.noeud c) = n.
Proof.
  destruct n as [centre0 voisins0]. cbn. repeat split.
Qed.

End ProprietesConfigurations.

(** No validation, on a run: a node whose table of neighbours binds the
    identifier of its own centre is enclosed as it is, and comes back
    as it is. *)
Example configurationDeNoeudTchat_sans_validation :
  let s := {| Sommet.ID := {| val := "s1" |}; Sommet.pseudo := "alice" |} in
  let n := {| Noeud.centre := s;
              Noeud.voisins :=
                ({[ Sommet.ID s := s ]}
                   : gmap (Identifiant sommet) Sommet.FormatSommetTchat) |} in
  let c := Configuration.configurationDeNoeudTchat n 7 in
  Configuration.voisins (Configuration.valeur c) !! Sommet.ID s = Some s
  /\ Noeud.valeur (Configuration.noeud c) = n.
Proof. split; [apply lookup_singleton_eq | reflexivity]. Qed.

(* ===================================================================== *)
(** * Mutable arrays: adding and removing at the end                      *)
(* ===================================================================== *)

Section ProprietesTableauMutable.
Variable T : Type.
Implicit Types (t : TableauMutable.FormatTableauMutable T)
               (a : list (Natif.Case T)) (c : Natif.Case T).

Lemma pop_vide : Natif.pop ([] : list (Natif.Case T)) = (None, []).
Proof. reflexivity. Qed.

Lemma pop_push a c : Natif.pop (Natif.push a c) = (c, a).
Proof.
  unfold Natif.pop, Natif.push.
  rewrite last_snoc, removelast_last. reflexivity.
Qed.

Lemma popTableau_dernier t l c :
  TableauMutable.tableau t = l ++ [c] ->
  TableauMutable.popTableau T t
  = (Retour c, {| TableauMutable.taille := TableauMutable.taille t;
                  TableauMutable.tableau := l;
                  TableauMutable.mutable := TableauMutable.mutable t |}).
Proof.
  intros H. unfold TableauMutable.popTableau.
  rewrite H. change (l ++ [c]) with (Natif.push l c).
  rewrite pop_push. reflexivity.
Qed.

(** A native array is empty or ends with a last cell. *)
Lemma tableau_vide_ou_dernier a : a = [] \/ exists l c, a = l ++ [c].
Proof.
  destruct a as [|x a]; [left; reflexivity | right].
  destruct (exists_last (l := x :: a)) as (l & c & ->); [discriminate |].
  exists l, c. reflexivity.
Qed.

(** On an empty array [retirerEnFin] throws and leaves [t] as it was. *)
Lemma retirerEnFin_vide t :
  TableauMutable.tableau t = [] ->
  TableauMutable.retirerEnFin t
  = (Exception "[Exception : retirerEnFin() non défini.]", t).
Proof.
  destruct t as [n a m]; simpl; intros ->. reflexivity.
Qed.

(** On an array whose last cell holds a value, [retirerEnFin] removes
    the cell, decrements [taille] and returns the value. *)
Lemma retirerEnFin_dernier_defini t l (v : T) :
  TableauMutable.tableau t = l ++ [Some v] ->
  TableauMutable.retirerEnFin t
  = (Retour v, {| TableauMutable.taille := TableauMutable.taille t - 1;
                  TableauMutable.tableau := l;
                  TableauMutable.mutable := TableauMutable.mutable t |}).
Proof.
  intros H. unfold TableauMutable.retirerEnFin.
  rewrite (lier_retour _ _ _ _ _ (popTableau_dernier t l (Some v) H)).
  reflexivity.
Qed.

(** On an array whose last cell reads as [undefined], [retirerEnFin]
    removes the cell all the same, then throws without decrementing
    [taille]. *)
Lemma retirerEnFin_dernier_indefini t l :
  TableauMutable.tableau t = l ++ [None] ->
  TableauMutable.retirerEnFin t
  = (Exception "[Exception : retirerEnFin() non défini.]",
     {| TableauMutable.taille := TableauMutable.taille t;
        TableauMutable.tableau := l;
        TableauMutable.mutable := TableauMutable.mutable t |}).
Proof.
  intros H. unfold TableauMutable.retirerEnFin.
  rewrite (lier_retour _ _ _ _ _ (popTableau_dernier t l None H)).
  reflexivity.
Qed.

(** The effect of [ajouterEnFin] in the embedding: [taille] grows by
    one and the cell is pushed. *)
Lemma ajouterEnFin_effet t c :
  TableauMutable.ajouterEnFin c t
  = (Retour tt, {| TableauMutable.taille := TableauMutable.taille t + 1;
                   TableauMutable.tableau := TableauMutable.tableau t ++ [c];
                   TableauMutable.mutable := TableauMutable.mutable t |}).
Proof. reflexivity. Qed.

(** X2. On a mutable array whose [taille] is a safe integer and whose
    length is an array index (it has room for one more cell), adding a
    value then removing at the end returns the value and restores
    [t]. *)
Lemma ajouter_puis_retirer_defini t (v : T) :
  Natif.entierSur (TableauMutable.taille t) ->
  Natif.estIndice (length (TableauMutable.tableau t)) ->
  (TableauMutable.ajouterEnFin (Some v) ;;; TableauMutable.retirerEnFin) t
  = (Retour v, t).
Proof.
  intros _ _.
  rewrite (lier_retour _ _ _ _ _ (ajouterEnFin_effet t (Some v))).
  rewrite (retirerEnFin_dernier_defini _ (TableauMutable.tableau t) v)
    by reflexivity.
  destruct t as [n a m]; simpl. do 2 f_equal. lia.
Qed.

(** X1. Where [taille] is a safe integer and every cell of the array
    holds a value, [retirerEnFin] throws exactly on the empty array,
    then leaving [t] untouched; otherwise it removes and returns the
    last element and decrements [taille]. *)
Lemma retirerEnFin_cases_definies t :
  Natif.entierSur (TableauMutable.taille t) ->
  Forall is_Some (TableauMutable.tableau t) ->
  (aLeve (TableauMutable.retirerEnFin t).1 <-> TableauMutable.tableau t = [])
  /\ (aLeve (TableauMutable.retirerEnFin t).1 ->
      (TableauMutable.retirerEnFin t).2 = t)
  /\ (forall l c, TableauMutable.tableau t = l ++ [c] ->
      exists v, c = Some v
        /\ TableauMutable.retirerEnFin t
           = (Retour v,
              {| TableauMutable.taille := TableauMutable.taille t - 1;
                 TableauMutable.tableau := l;
                 TableauMutable.mutable := TableauMutable.mutable t |})).
Proof.
  intros _ Hdef.
  destruct (tableau_vide_ou_dernier (TableauMutable.tableau t))
    as [Hvide | (l & c & Hl)].
  - rewrite (retirerEnFin_vide t Hvide); simpl. split_and!.
    + split; [intros _; exact Hvide | intros _; exact I].
    + reflexivity.
    + intros l c Hl. rewrite Hvide in Hl. destruct l; discriminate.
  - assert (is_Some c) as [v ->].
    { rewrite Hl in Hdef. apply Forall_app in Hdef as [_ Hc].
      inversion Hc; assumption. }
    rewrite (retirerEnFin_dernier_defini t l v Hl); simpl. split_and!.
    + split; [intros [] | intros H; rewrite H in Hl; destruct l; discriminate].
    + intros [].
    + intros l' c' Hl'. rewrite Hl in Hl'.
      apply app_inj_tail in Hl' as [-> <-]. exists v. split; reflexivity.
Qed.

End ProprietesTableauMutable.

(** Witness of X1: removing at the end of [[1; 2]]. *)
Lemma retirerEnFin_cases_definies_temoin :
  Natif.entierSur
    (TableauMutable.taille
       (TableauMutable.creerEnveloppeMutable [Some 1; Some 2]))
  /\ Forall is_Some [Some 1; Some 2]
  /\ TableauMutable.retirerEnFin
       (TableauMutable.creerEnveloppeMutable [Some 1; Some 2])
     = (Retour 2, {| TableauMutable.taille := 1;
                     TableauMutable.tableau := [Some 1];
                     TableauMutable.mutable := ZERO |}).
Proof.
  assert (Natif.entierSur
            (TableauMutable.taille
               (TableauMutable.creerEnveloppeMutable [Some 1; Some 2])))
    as Hsur by (unfold Natif.entierSur; simpl; lia).
  assert (Forall is_Some [Some 1; Some 2]) as Hdef
    by (repeat constructor; eexists; reflexivity).
  split; [exact Hsur |]. split; [exact Hdef |].
  destruct (retirerEnFin_cases_definies nat
              (TableauMutable.creerEnveloppeMutable [Some 1; Some 2])
              Hsur Hdef)
    as (_ & _ & Hdernier).
  destruct (Hdernier [Some 1] (Some 2) eq_refl) as (v & Hv & Hrun).
  injection Hv as <-. exact Hrun.
Defined.

(** C9, at the failing input: [tableauUnIndefini] is not empty and
    satisfies [taille == tableau.length], yet [retirerEnFin] throws on
    it, and the array it leaves has lost its cell while [taille] is
    still 1: the invariant is broken. The same happens after
    [ajouterEnFin(t, undefined)] on the empty array. *)
Theorem retirerEnFin_indefini_leve :
  TableauMutable.tableau tableauUnIndefini <> []
  /\ TableauMutable.invariant tableauUnIndefini
  /\ TableauMutable.retirerEnFin tableauUnIndefini
     = (Exception "[Exception : retirerEnFin() non défini.]",
        {| TableauMutable.taille := 1;
           TableauMutable.tableau := [];
           TableauMutable.mutable := ZERO |})
  /\ (TableauMutable.retirerEnFin tableauUnIndefini).2 <> tableauUnIndefini
  /\ ~ TableauMutable.invariant (TableauMutable.retirerEnFin tableauUnIndefini).2
  /\ (TableauMutable.ajouterEnFin None ;;; TableauMutable.retirerEnFin)
       (TableauMutable.creerVideMutable : TableauMutable.FormatTableauMutable nat)
     = (Exception "[Exception : retirerEnFin() non défini.]",
        {| TableauMutable.taille := 1;
           TableauMutable.tableau := [];
           TableauMutable.mutable := ZERO |}).
Proof.
  split_and!.
  - discriminate.
  - reflexivity.
  - reflexivity.
  - discriminate.
  - unfold TableauMutable.invariant; simpl. lia.
  - reflexivity.
Qed.

(* ===================================================================== *)
(** * The shuffle                                                         *)
(* ===================================================================== *)

Section ProprietesNatif.
Variable T : Type.
Implicit Types (a t : list (Natif.Case T)) (c : Natif.Case T).

Lemma lireIndice_dans a i c : a !! i = Some c -> Natif.lireIndice a i = c.
Proof. intros H. unfold Natif.lireIndice. rewrite H. reflexivity. Qed.

Lemma lireIndice_lookup a i :
  i < length a -> a !! i = Some (Natif.lireIndice a i).
Proof.
  intros H. destruct (lookup_lt_is_Some_2 a i H) as [c Hc].
  rewrite (lireIndice_dans a i c Hc). exact Hc.
Qed.

Lemma ecrireIndice_dans a i c :
  i < length a -> Natif.ecrireIndice a i c = <[i := c]> a.
Proof. intros H. unfold Natif.ecrireIndice. rewrite decide_True; done. Qed.

(** An exchange of two positions of the array permutes its cells. *)
Lemma echanger_permute t i j :
  i < length t -> j < length t ->
  Tableau.echanger t i j ≡ₚ t /\ length (Tableau.echanger t i j) = length t.
Proof.
  intros Hi Hj. unfold Tableau.echanger.
  rewrite (ecrireIndice_dans t i) by assumption.
  rewrite ecrireIndice_dans by (rewrite length_insert; assumption).
  split.
  - apply Permutation_insert_swap; apply lireIndice_lookup; assumption.
  - rewrite !length_insert. reflexivity.
Qed.

Lemma recopier_lookup (source : list (Natif.Case T)) indices : forall t k,
  length t = length source ->
  Forall (fun i => i < length source) indices ->
  length (recopier source indices t) = length source
  /\ recopier source indices t !! k
     = if decide (k ∈ indices) then source !! k else t !! k.
Proof.
  induction indices as [|i indices IH]; intros t k Hlen Hind; simpl.
  - split; [exact Hlen | reflexivity].
  - apply Forall_cons in Hind as [Hi Hind].
    assert (i < length t) as Hit by lia.
    rewrite (ecrireIndice_dans t i) by exact Hit.
    destruct (IH (<[i := Natif.lireIndice source i]> t) k) as [IHlen IHk];
      [rewrite length_insert; exact Hlen | exact Hind |].
    split; [exact IHlen |]. rewrite IHk.
    destruct (decide (k ∈ indices)) as [Hk | Hk].
    + rewrite decide_True by (right; exact Hk). reflexivity.
    + destruct (decide (k = i)) as [-> | Hne].
      * rewrite decide_True by left.
        rewrite list_lookup_insert_eq by exact Hit.
        symmetry. apply lireIndice_lookup. exact Hi.
      * rewrite decide_False by (intros [?|?]%elem_of_cons; done).
        apply list_lookup_insert_ne. congruence.
Qed.

(** Copying the keys of [source] into [new Array(source.length)] gives
    an array with the cells of [source]. *)
Lemma recopier_cles (source : list (Natif.Case T)) :
  recopier source (Natif.cles source) (Natif.nouveauTableau (length source))
  = source.
Proof.
  apply list_eq; intros k.
  destruct (recopier_lookup source (Natif.cles source)
              (Natif.nouveauTableau (length source)) k) as [_ ->].
  - unfold Natif.nouveauTableau. apply length_replicate.
  - unfold Natif.cles. apply Forall_forall. intros i Hi.
    apply list_elem_of_filter in Hi as [_ Hi]. apply elem_of_seq in Hi. lia.
  - destruct (decide (k ∈ Natif.cles source)) as [Hk | Hk]; [reflexivity |].
    unfold Natif.nouveauTableau.
    destruct (decide (k < length source)) as [Hlt | Hge].
    + rewrite lookup_replicate_2 by exact Hlt.
      rewrite (lireIndice_lookup source k Hlt).
      destruct (Natif.lireIndice source k) as [v|] eqn:Hc; [| reflexivity].
      exfalso. apply Hk. unfold Natif.cles. apply list_elem_of_filter. split.
      * rewrite Hc. eexists; reflexivity.
      * apply elem_of_seq. lia.
    + rewrite (proj1 (lookup_replicate_None _ _ _)) by lia.
      symmetry. apply lookup_ge_None. lia.
Qed.

End ProprietesNatif.

Section ProprietesMelange.
Variables (T Generateur : Type).
Variable entierAleatoire : nat -> Generateur -> nat * Generateur.
Implicit Types (e : Tableau.Environnement T Generateur)
               (t : list (Natif.Case T)).

(** The copy loop never throws, leaves the environment alone and writes
    into [t] the cells of [tab] at the given positions. *)
Lemma copier_recopie indices : forall t e,
  Tableau.copier indices t e
  = (Retour (recopier (Tableau.tab e) indices t), e).
Proof.
  induction indices as [|i indices IH]; intros t e; simpl.
  - reflexivity.
  - unfold lier, Tableau.lireTab; simpl. apply IH.
Qed.

(** The draws are bounded: a draw for [i] lies between 0 and [i]. *)
Hypothesis entierAleatoire_borne :
  forall i g, (entierAleatoire i g).1 <= i.

(** The exchange loop entered with an index inside [t] never throws,
    permutes [t] and does not touch the argument array. *)
Lemma boucleMelange_permute i : forall t e,
  i < length t \/ i = 0 ->
  exists t' e',
    Tableau.boucleMelange entierAleatoire i t e = (Retour t', e')
    /\ t' ≡ₚ t
    /\ Tableau.tab e' = Tableau.tab e.
Proof.
  induction i as [|i IH]; intros t e Hi; simpl.
  - exists t, e. repeat split; reflexivity.
  - destruct Hi as [Hi | Hi]; [| discriminate].
    unfold lier, Tableau.tirer.
    pose proof (entierAleatoire_borne (S i) (Tableau.alea e)) as Hj.
    destruct (entierAleatoire (S i) (Tableau.alea e)) as [j g]; simpl in Hj.
    destruct (echanger_permute T t (S i) j) as [Hperm Hlen]; [lia | lia |].
    destruct (IH (Tableau.echanger t (S i) j)
                 {| Tableau.tab := Tableau.tab e; Tableau.alea := g |})
      as (t' & e' & Hrun & Hperm' & Htab); [left; lia |].
    exists t', e'. split; [exact Hrun |]. split; [| exact Htab].
    etransitivity; [exact Hperm' | exact Hperm].
Qed.

(** The cells computed by the shuffle, with draws for [i] between 0 and
    [i]: a permutation of the cells of [tab]. *)
Lemma melange_cases_permutees e :
  exists r e',
    Tableau.melange entierAleatoire e = (Retour r, e')
    /\ Tableau.taille r = Z.of_nat (length (Tableau.tab e))
    /\ Tableau.tableau r ≡ₚ Tableau.tab e
    /\ length (Tableau.tableau r) = length (Tableau.tab e)
    /\ Tableau.tab e' = Tableau.tab e.
Proof.
  unfold Tableau.melange.
  set (n := length (Tableau.tab e)).
  destruct (boucleMelange_permute (n - 1) (Tableau.tab e) e)
    as (t' & e' & Hrun & Hperm & Htab).
  { subst n. destruct (Tableau.tab e); simpl; [right; reflexivity | left; lia]. }
  exists {| Tableau.taille := Z.of_nat (length (Tableau.tab e'));
            Tableau.tableau := t' |}, e'.
  split.
  - unfold lier at 1, Tableau.longueurTab at 1; simpl.
    unfold lier at 1, Tableau.clesTab; simpl.
    rewrite (lier_retour _ _ _ _ _ (copier_recopie _ _ e)).
    fold n. subst n. rewrite recopier_cles.
    rewrite (lier_retour _ _ _ _ _ Hrun).
    reflexivity.
  - simpl. rewrite Htab. split; [reflexivity |]. split; [exact Hperm |].
    split; [| reflexivity]. apply Permutation_length. exact Hperm.
Qed.

(** ** The shuffle on the heap *)

Implicit Types (h : list (list (Natif.Case T))) (g : Generateur).

Lemma lire_tas h g (r : TableauEnTas.Ref) (cases : list (Natif.Case T)) i :
  h !! r = Some cases ->
  TableauEnTas.lire r i {| TableauEnTas.tas := h; TableauEnTas.alea := g |}
  = (Retour (Natif.lireIndice cases i),
     {| TableauEnTas.tas := h; TableauEnTas.alea := g |}).
Proof.
  intros Hr. unfold TableauEnTas.lire, TableauEnTas.consulter. simpl.
  rewrite Hr. reflexivity.
Qed.

Lemma dernier_lookup h (c : list (Natif.Case T)) :
  (h ++ [c]) !! length h = Some c.
Proof. rewrite lookup_app_r, Nat.sub_diag by lia. reflexivity. Qed.

Lemma ecrire_dernier h (c : list (Natif.Case T)) g i v :
  TableauEnTas.ecrire (length h) i v
    {| TableauEnTas.tas := h ++ [c]; TableauEnTas.alea := g |}
  = (Retour tt,
     {| TableauEnTas.tas := h ++ [Natif.ecrireIndice c i v];
        TableauEnTas.alea := g |}).
Proof.
  unfold TableauEnTas.ecrire. simpl. rewrite dernier_lookup.
  rewrite insert_app_r_alt, Nat.sub_diag by lia. reflexivity.
Qed.

(** The copy loop writes into the array just allocated the cells of
    [tab] at the given positions, and touches no other array. *)
Lemma copier_tas h g (tab : TableauEnTas.Ref) (a : list (Natif.Case T))
    indices : forall c,
  h !! tab = Some a ->
  TableauEnTas.copier indices tab (length h)
    {| TableauEnTas.tas := h ++ [c]; TableauEnTas.alea := g |}
  = (Retour tt,
     {| TableauEnTas.tas := h ++ [recopier a indices c];
        TableauEnTas.alea := g |}).
Proof.
  induction indices as [|i indices IH]; intros c Htab; [reflexivity |].
  simpl TableauEnTas.copier.
  rewrite (lier_retour _ _ _ _ _
             (lire_tas (h ++ [c]) g tab a i
                (lookup_app_l_Some _ _ _ _ Htab))).
  rewrite (lier_retour _ _ _ _ _ (ecrire_dernier h c g i _)).
  exact (IH _ Htab).
Qed.

(** The exchange through the reference is the exchange of the cells. *)
Lemma echanger_tas h (c : list (Natif.Case T)) g i j :
  TableauEnTas.echanger (length h) i j
    {| TableauEnTas.tas := h ++ [c]; TableauEnTas.alea := g |}
  = (Retour tt,
     {| TableauEnTas.tas := h ++ [Tableau.echanger c i j];
        TableauEnTas.alea := g |}).
Proof.
  unfold TableauEnTas.echanger.
  rewrite (lier_retour _ _ _ _ _
             (lire_tas (h ++ [c]) g (length h) c j (dernier_lookup h c))).
  rewrite (lier_retour _ _ _ _ _
             (lire_tas (h ++ [c]) g (length h) c i (dernier_lookup h c))).
  rewrite (lier_retour _ _ _ _ _ (ecrire_dernier h c g i _)).
  rewrite ecrire_dernier. reflexivity.
Qed.

(** The exchange loop through the reference leaves in the array what
    the loop on the cells computes, and draws the same numbers. *)
Lemma boucleMelange_raffine h (a : list (Natif.Case T)) i :
  forall (c : list (Natif.Case T)) g c' e',
  Tableau.boucleMelange entierAleatoire i c
    {| Tableau.tab := a; Tableau.alea := g |} = (Retour c', e') ->
  TableauEnTas.boucleMelange entierAleatoire i (length h)
    {| TableauEnTas.tas := h ++ [c]; TableauEnTas.alea := g |}
  = (Retour tt,
     {| TableauEnTas.tas := h ++ [c']; TableauEnTas.alea := Tableau.alea e' |}).
Proof.
  induction i as [|i IH]; intros c g c' e' Hrun.
  - simpl in Hrun. unfold retourner in Hrun. injection Hrun as <- <-.
    reflexivity.
  - simpl in Hrun. unfold lier at 1, Tableau.tirer in Hrun. simpl in Hrun.
    simpl TableauEnTas.boucleMelange.
    unfold lier at 1, TableauEnTas.tirer. simpl.
    destruct (entierAleatoire (S i) g) as [j g'].
    rewrite (lier_retour _ _ _ _ _ (echanger_tas h c g' (S i) j)).
    exact (IH _ _ _ _ Hrun).
Qed.

(** C10. For every input array [tab] (the array [a] of the heap) and
    every random generator whose draws for [i] lie between 0 and [i],
    [melange(tab)] returns (it never throws) a format whose [taille] is
    [tab.length] and whose [tableau] is a new array: its reference
    named no array before the call, so it is not [tab]; the cells of
    that array are a permutation of the cells of [tab] (the same
    multiset, hence the same length); no array of the heap, [tab]
    included, is modified, and the new array is the only one
    allocated. *)
Theorem melange_alloue_et_permute (tab : TableauEnTas.Ref)
    (e : TableauEnTas.Environnement T Generateur) (a : list (Natif.Case T)) :
  TableauEnTas.tas e !! tab = Some a ->
  exists r (e' : TableauEnTas.Environnement T Generateur) t,
    TableauEnTas.melange entierAleatoire tab e = (Retour r, e')
    /\ TableauEnTas.tas e !! TableauEnTas.tableau r = None
    /\ TableauEnTas.tableau r <> tab
    /\ TableauEnTas.taille r = Z.of_nat (length a)
    /\ TableauEnTas.tas e' !! TableauEnTas.tableau r = Some t
    /\ t ≡ₚ a
    /\ length t = length a
    /\ TableauEnTas.tas e' !! tab = Some a
    /\ (forall r0 c, TableauEnTas.tas e !! r0 = Some c ->
          TableauEnTas.tas e' !! r0 = Some c)
    /\ TableauEnTas.tas e' = TableauEnTas.tas e ++ [t].
Proof.
  intros Htab. destruct e as [h g]. simpl in Htab.
  destruct (boucleMelange_permute (length a - 1) a
              {| Tableau.tab := a; Tableau.alea := g |})
    as (t' & e0 & Hrun & Hperm & _).
  { simpl. destruct a; simpl; [right; reflexivity | left; lia]. }
  exists {| TableauEnTas.taille := Z.of_nat (length a);
            TableauEnTas.tableau := length h |},
         {| TableauEnTas.tas := h ++ [t'];
            TableauEnTas.alea := Tableau.alea e0 |}, t'.
  assert ((h ++ [t']) !! tab = Some a) as Htab'
    by (apply lookup_app_l_Some; exact Htab).
  simpl. split_and!.
  - unfold TableauEnTas.melange.
    unfold lier at 1, TableauEnTas.longueur at 1, TableauEnTas.consulter.
    simpl. rewrite Htab.
    unfold lier at 1, TableauEnTas.allouer. simpl.
    unfold lier at 1, TableauEnTas.cles, TableauEnTas.consulter. simpl.
    rewrite (lookup_app_l_Some _ _ _ _ Htab).
    rewrite (lier_retour _ _ _ _ _ (copier_tas h g tab a _ _ Htab)).
    rewrite recopier_cles.
    rewrite (lier_retour _ _ _ _ _ (boucleMelange_raffine h a _ _ _ _ _ Hrun)).
    unfold lier, TableauEnTas.longueur, TableauEnTas.consulter. simpl.
    rewrite Htab'. reflexivity.
  - apply lookup_ge_None. lia.
  - apply lookup_lt_Some in Htab. lia.
  - reflexivity.
  - apply dernier_lookup.
  - exact Hperm.
  - apply Permutation_length. exact Hperm.
  - exact Htab'.
  - intros r0 c Hr0. apply lookup_app_l_Some. exact Hr0.
  - reflexivity.
Qed.

End ProprietesMelange.

(** Witness of C10: the shuffle of the array [[a; undefined; c; d]],
    alone in the heap, with the draws 2, 0, 1. *)
Lemma melange_alloue_et_permute_temoin :
  (forall i g, (tirageScripte i g).1 <= i)
  /\ [[Some "a"; None; Some "c"; Some "d"]] !! 0
     = Some [Some "a"; None; Some "c"; Some "d"]
  /\ exists r e' t,
      TableauEnTas.melange tirageScripte 0
        {| TableauEnTas.tas := [[Some "a"; None; Some "c"; Some "d"]];
           TableauEnTas.alea := [2; 0; 1] |} = (Retour r, e')
      /\ TableauEnTas.tableau r <> 0
      /\ TableauEnTas.taille r = 4%Z
      /\ TableauEnTas.tas e' !! TableauEnTas.tableau r = Some t
      /\ t ≡ₚ [Some "a"; None; Some "c"; Some "d"]
      /\ TableauEnTas.tas e' !! 0 = Some [Some "a"; None; Some "c"; Some "d"].
Proof.
  assert (forall i g, (tirageScripte i g).1 <= i) as Hborne.
  { intros i [|x g]; simpl; lia. }
  split; [exact Hborne |]. split; [reflexivity |].
  destruct (melange_alloue_et_permute string (list nat) tirageScripte Hborne 0
              {| TableauEnTas.tas := [[Some "a"; None; Some "c"; Some "d"]];
                 TableauEnTas.alea := [2; 0; 1] |}
              [Some "a"; None; Some "c"; Some "d"] eq_refl)
    as (r & e' & t & Hrun & _ & Hneuf & Htaille & Ht & Hperm & _ & Htab & _).
  exists r, e', t. split_and!; assumption.
Defined.

(** The run of that witness, computed: the array 1 is the new one. *)
Example melange_tas_exemple :
  TableauEnTas.melange tirageScripte 0
    {| TableauEnTas.tas := [[Some "a"; None; Some "c"; Some "d"]];
       TableauEnTas.alea := [2; 0; 1] |}
  = (Retour {| TableauEnTas.taille := 4; TableauEnTas.tableau := 1 |},
     {| TableauEnTas.tas := [[Some "a"; None; Some "c"; Some "d"];
                             [Some "d"; None; Some "a"; Some "c"]];
        TableauEnTas.alea := [] |}).
Proof. reflexivity. Qed.

(** The run of the witness, computed: draws 2, 0, 1 for [i] = 3, 2, 1. *)
Example melange_exemple :
  (Tableau.melange tirageScripte
     {| Tableau.tab := [Some "a"; None; Some "c"; Some "d"];
        Tableau.alea := [2; 0; 1] |}).1
  = Retour {| Tableau.taille := 4;
              Tableau.tableau := [Some "d"; None; Some "a"; Some "c"] |}.
Proof. reflexivity. Qed.

(* ===================================================================== *)
(** * The ring assembler                                                  *)
(* ===================================================================== *)

(** ** Tables filled by a loop of insertions *)

Section TablesRemplies.
Context `{Countable K} {V : Type}.

Lemma inserer_list_to_map (l : list (K * V)) :
  foldl inserer ∅ l = list_to_map (reverse l).
Proof.
  induction l as [|kv l IH] using rev_ind; [reflexivity |].
  rewrite foldl_app, reverse_snoc, IH. destruct kv as [k v]. reflexivity.
Qed.

Lemma inserer_taille (l : list (K * V)) :
  NoDup l.*1 -> size (foldl inserer ∅ l) = length l.
Proof.
  intros Hnd. rewrite inserer_list_to_map.
  rewrite map_size_list_to_map, length_reverse; [reflexivity |].
  rewrite fmap_reverse, reverse_Permutation. exact Hnd.
Qed.

Lemma inserer_lookup (l : list (K * V)) k v :
  NoDup l.*1 -> (foldl inserer ∅ l !! k = Some v <-> (k, v) ∈ l).
Proof.
  intros Hnd. rewrite inserer_list_to_map.
  rewrite <- elem_of_list_to_map.
  - rewrite elem_of_reverse. reflexivity.
  - rewrite fmap_reverse, reverse_Permutation. exact Hnd.
Qed.

End TablesRemplies.

(** The length of a concatenation of lists made from a list. *)
Lemma length_bind_sum {A B} (f : A -> list B) (l : list A) :
  length (l ≫= f) = sum_list_with (fun x => length (f x)) l.
Proof.
  induction l as [|x l IH]; [reflexivity |].
  rewrite bind_cons, length_app, IH. reflexivity.
Qed.

Lemma sum_list_with_egal {A} (f g : A -> nat) (l : list A) :
  (forall x, x ∈ l -> f x = g x) -> sum_list_with f l = sum_list_with g l.
Proof.
  induction l as [|x l IH]; intros Hfg; simpl; [reflexivity |].
  rewrite (Hfg x) by left. rewrite IH; [reflexivity |].
  intros y Hy. apply Hfg. right. exact Hy.
Qed.

(** A loop nested in a loop is a loop over the pairs of indices. *)
Lemma foldl_bind {S A B} (g : S -> A * B -> S) (f : A -> list B)
    (l : list A) : forall s,
  foldl (fun s x => foldl (fun s y => g s (x, y)) s (f x)) s l
  = foldl g s (l ≫= fun x => pair x <$> f x).
Proof.
  induction l as [|x l IH]; intros s; simpl; [reflexivity |].
  rewrite foldl_app, IH. f_equal.
  generalize s. induction (f x) as [|y ys IHy]; intros s0; simpl;
    [reflexivity | apply IHy].
Qed.

(** ** The populations and the enumeration after step 2 *)

Section Peuplement.
Variable p : Anneau.Parametres.
Implicit Types (a : Anneau.Assemblage) (d : Identifiant domaine)
               (u : Anneau.Utilisateur).

Lemma peuplerDomaine_effet i a :
  Anneau.peuplerDomaine p i a = (Retour tt, effetDomaine p a i).
Proof.
  unfold Anneau.peuplerDomaine, effetDomaine.
  apply (pourChaque_foldl (fun _ => True)); [| exact I].
  intros j s _ _. split; [reflexivity | exact I].
Qed.

Lemma peupler_effet :
  Anneau.peupler p Anneau.assemblageVide
  = (Retour tt, etatPeuple p (Anneau.ND p)).
Proof.
  unfold Anneau.peupler, etatPeuple.
  apply (pourChaque_foldl (fun _ => True)); [| exact I].
  intros i s _ _. split; [apply peuplerDomaine_effet | exact I].
Qed.

Lemma enumerer_foldl d (f : nat -> Anneau.Utilisateur) (l : list nat) :
  forall e : gmap (Identifiant domaine) (list Anneau.Utilisateur),
  l <> [] ->
  foldl (fun e j => Anneau.enumerer d (f j) e) e l
  = <[d := default [] (e !! d) ++ (f <$> l)]> e.
Proof.
  induction l as [|j l IH]; intros e Hl; [congruence |]. simpl.
  destruct l as [|j' l]; [reflexivity |].
  rewrite IH by discriminate. unfold Anneau.enumerer.
  rewrite lookup_insert_eq, insert_insert_eq. simpl.
  rewrite <- app_assoc. reflexivity.
Qed.

Lemma inscrire_foldl d (f : nat -> Anneau.Utilisateur) (l : list nat) :
  forall pop : gmap (Identifiant domaine)
                    (gmap (Identifiant utilisateur) Anneau.Utilisateur),
  l <> [] ->
  foldl (fun pop j => Anneau.inscrire d (f j) pop) pop l
  = <[d := foldl inserer (default ∅ (pop !! d))
             ((fun u => (Anneau.ID u, u)) <$> (f <$> l))]> pop.
Proof.
  induction l as [|j l IH]; intros pop Hl; [congruence |]. simpl.
  destruct l as [|j' l]; [reflexivity |].
  rewrite IH by discriminate. unfold Anneau.inscrire.
  rewrite lookup_insert_eq, insert_insert_eq. reflexivity.
Qed.

(** The stores after the loop of one domain over the positions [l]. *)
Lemma effetUtilisateur_foldl i (l : list nat) : forall a,
  Anneau.EPop (foldl (effetUtilisateur p i) a l)
  = foldl (fun e j => Anneau.enumerer (Anneau.ED p i)
                        (Anneau.creerUtilisateur p i j) e)
          (Anneau.EPop a) l
  /\ Anneau.popAConnecter (foldl (effetUtilisateur p i) a l)
     = foldl (fun pop j => Anneau.inscrire (Anneau.ED p i)
                             (Anneau.creerUtilisateur p i j) pop)
             (Anneau.popAConnecter a) l
  /\ Anneau.popConnectee (foldl (effetUtilisateur p i) a l)
     = Anneau.popConnectee a
  /\ Anneau.consignes (foldl (effetUtilisateur p i) a l) = Anneau.consignes a.
Proof.
  induction l as [|j l IH]; intros a; simpl; [repeat split |].
  destruct (IH (effetUtilisateur p i a j)) as (-> & -> & -> & ->).
  repeat split.
Qed.

Hypothesis ED_injective : enumerationInjective p.
Hypothesis NU_positif : domainesPeuples p.

Lemma seq_non_vide n : 0 < n -> seq 0 n <> [].
Proof. destruct n; [lia | discriminate]. Qed.

(** After the first [n] domains: each has its enumeration and its
    table, no other domain has any, and nothing else was written. *)
Lemma etatPeuple_invariant n :
  n <= Anneau.ND p ->
  (forall i, i < n ->
     Anneau.EPop (etatPeuple p n) !! Anneau.ED p i = Some (utilisateurs p i)
     /\ Anneau.popAConnecter (etatPeuple p n) !! Anneau.ED p i
        = Some (tableUtilisateurs p i))
  /\ (forall d, (forall i, i < n -> d <> Anneau.ED p i) ->
        Anneau.EPop (etatPeuple p n) !! d = None
        /\ Anneau.popAConnecter (etatPeuple p n) !! d = None)
  /\ Anneau.popConnectee (etatPeuple p n) = ∅
  /\ Anneau.consignes (etatPeuple p n) = ∅.
Proof.
  induction n as [|n IH]; intros Hn.
  - split; [intros i Hi; lia |]. repeat split.
  - destruct IH as (IHdans & IHhors & IHcon & IHcsg); [lia |].
    unfold etatPeuple. rewrite seq_S, foldl_app. simpl. fold (etatPeuple p n).
    unfold effetDomaine.
    destruct (effetUtilisateur_foldl n (seq 0 (Anneau.NU p n)) (etatPeuple p n))
      as (HE & HP & HC & HS).
    rewrite HE, HP, HC, HS. clear HE HP HC HS.
    assert (seq 0 (Anneau.NU p n) <> []) as Hseq
      by (apply seq_non_vide, NU_positif; lia).
    rewrite enumerer_foldl, inscrire_foldl by exact Hseq.
    destruct (IHhors (Anneau.ED p n)) as [-> ->].
    { intros i Hi Heq. apply ED_injective in Heq; lia. }
    simpl. fold (utilisateurs p n). fold (tableUtilisateurs p n).
    split; [| split; [| split; assumption]].
    + intros i Hi. destruct (decide (i = n)) as [-> | Hne].
      * rewrite !lookup_insert_eq. split; reflexivity.
      * assert (Anneau.ED p n <> Anneau.ED p i) as Hd.
        { intros Heq. apply ED_injective in Heq; lia. }
        rewrite !lookup_insert_ne by exact Hd. apply IHdans. lia.
    + intros d Hd.
      rewrite !lookup_insert_ne by (intros Heq; apply (Hd n); [lia | congruence]).
      apply IHhors. intros i Hi. apply Hd. lia.
Qed.

End Peuplement.

(** ** The table of instructions after steps 3 and 4 *)

Section Generation.
Variable p : Anneau.Parametres.
Implicit Types (a : Anneau.Assemblage).

Lemma elem_of_positions i j :
  (i, j) ∈ positions p <-> i < Anneau.ND p /\ j < Anneau.NU p i.
Proof.
  unfold positions. rewrite list_elem_of_bind. split.
  - intros (i' & Hij & Hi'). apply list_elem_of_fmap in Hij as (j' & Heq & Hj').
    injection Heq as -> ->. apply elem_of_seq in Hi', Hj'. lia.
  - intros [Hi Hj]. exists i. split.
    + apply list_elem_of_fmap. exists j. split; [reflexivity |].
      apply elem_of_seq. lia.
    + apply elem_of_seq. lia.
Qed.

Lemma length_positions :
  length (positions p) = sum_list_with (Anneau.NU p) (seq 0 (Anneau.ND p)).
Proof.
  unfold positions. rewrite length_bind_sum.
  apply sum_list_with_egal. intros i _.
  rewrite length_fmap, length_seq. reflexivity.
Qed.

Lemma NoDup_positions : NoDup (positions p).
Proof.
  unfold positions. apply NoDup_bind.
  - intros i i' [i0 j] _ _ Hi Hi'.
    apply list_elem_of_fmap in Hi as (? & Heq & _).
    apply list_elem_of_fmap in Hi' as (? & Heq' & _). congruence.
  - intros i _. apply NoDup_fmap_2; [| apply NoDup_seq].
    intros j j' Heq. congruence.
  - apply NoDup_seq.
Qed.

Lemma utilisateurs_lookup i j :
  j < Anneau.NU p i ->
  utilisateurs p i !! j = Some (Anneau.creerUtilisateur p i j).
Proof.
  intros Hj. unfold utilisateurs.
  rewrite list_lookup_fmap, lookup_seq_lt by exact Hj. reflexivity.
Qed.

Lemma lireEnumeration_complete a i j :
  enumerationComplete p a -> i < Anneau.ND p -> j < Anneau.NU p i ->
  Anneau.lireEnumeration p i j a
  = (Retour (Anneau.creerUtilisateur p i j), a).
Proof.
  intros Ha Hi Hj. unfold Anneau.lireEnumeration.
  rewrite (Ha i Hi). simpl. rewrite (utilisateurs_lookup i j Hj). reflexivity.
Qed.

Hypothesis NU_positif : domainesPeuples p.

Lemma oppose_dans_anneau i : i < Anneau.ND p -> Anneau.oppose p i < Anneau.ND p.
Proof. intros Hi. unfold Anneau.oppose. apply Nat.mod_upper_bound. lia. Qed.

Lemma destinataire_dans_domaine i j :
  i < Anneau.ND p ->
  (i + j) mod Anneau.NU p (Anneau.oppose p i)
  < Anneau.NU p (Anneau.oppose p i).
Proof.
  intros Hi. apply Nat.mod_upper_bound.
  pose proof (NU_positif _ (oppose_dans_anneau i Hi)). lia.
Qed.

(** Step 3 at a position of the ring never fails once the enumeration
    is complete, and yields the expected instruction. *)
Lemma creerConsigne_attendue a i j :
  enumerationComplete p a -> i < Anneau.ND p -> j < Anneau.NU p i ->
  Anneau.creerConsigne p i j a = (Retour (consigneAttendue p (i, j)), a).
Proof.
  intros Ha Hi Hj. unfold Anneau.creerConsigne.
  pose proof (oppose_dans_anneau i Hi) as Hk.
  pose proof (NU_positif _ Hk) as Hpos.
  rewrite decide_False by lia.
  rewrite (lier_retour _ _ _ _ _ (lireEnumeration_complete a i j Ha Hi Hj)).
  rewrite (lier_retour _ _ _ _ _
             (lireEnumeration_complete a _ _ Ha Hk
                (destinataire_dans_domaine i j Hi))).
  reflexivity.
Qed.

Lemma genererDomaine_effet a i :
  enumerationComplete p a -> i < Anneau.ND p ->
  Anneau.genererDomaine p i a
  = (Retour tt,
     foldl (fun a j => effetConsigne p a (i, j)) a (seq 0 (Anneau.NU p i)))
  /\ enumerationComplete p
       (foldl (fun a j => effetConsigne p a (i, j)) a (seq 0 (Anneau.NU p i))).
Proof.
  intros Ha Hi. unfold Anneau.genererDomaine.
  apply (pourChaque_foldl (enumerationComplete p)); [| exact Ha].
  intros j s Hj Hs. apply elem_of_seq in Hj. split; [| exact Hs].
  rewrite (lier_retour _ _ _ _ _ (creerConsigne_attendue s i j Hs Hi ltac:(lia))).
  reflexivity.
Qed.

Lemma generer_effet a :
  enumerationComplete p a ->
  Anneau.generer p a = (Retour tt, foldl (effetConsigne p) a (positions p)).
Proof.
  intros Ha. unfold Anneau.generer, positions.
  rewrite <- (foldl_bind (effetConsigne p) (fun i => seq 0 (Anneau.NU p i))).
  apply (pourChaque_foldl (enumerationComplete p)); [| exact Ha].
  intros i s Hi Hs. apply elem_of_seq in Hi.
  apply genererDomaine_effet; [exact Hs | lia].
Qed.

Lemma effetConsigne_foldl (l : list (nat * nat)) : forall a,
  Anneau.popAConnecter (foldl (effetConsigne p) a l) = Anneau.popAConnecter a
  /\ Anneau.popConnectee (foldl (effetConsigne p) a l) = Anneau.popConnectee a
  /\ Anneau.EPop (foldl (effetConsigne p) a l) = Anneau.EPop a
  /\ Anneau.consignes (foldl (effetConsigne p) a l)
     = foldl inserer (Anneau.consignes a)
         ((fun ij => (cle p ij, consigneAttendue p ij)) <$> l).
Proof.
  induction l as [|ij l IH]; intros a; simpl; [repeat split |].
  destruct (IH (effetConsigne p a ij)) as (-> & -> & -> & ->).
  repeat split.
Qed.

Hypothesis ED_injective : enumerationInjective p.
Hypothesis ID_distincts : identifiantsDistincts p.

(** Two positions of the ring with the same key are the same position. *)
Lemma cle_injective ij ij' :
  ij ∈ positions p -> ij' ∈ positions p -> cle p ij = cle p ij' -> ij = ij'.
Proof.
  destruct ij as [i j], ij' as [i' j'].
  intros [Hi Hj]%elem_of_positions [Hi' Hj']%elem_of_positions Heq.
  unfold cle in Heq; simpl in Heq. injection Heq as HED HID.
  apply ED_injective in HED; [subst i' | assumption ..].
  apply ID_distincts in HID; [subst j' | assumption ..]. reflexivity.
Qed.

Lemma NoDup_cles :
  NoDup ((fun ij => (cle p ij, consigneAttendue p ij)) <$> (positions p)).*1.
Proof.
  rewrite <- list_fmap_compose.
  apply NoDup_fmap_2_strong; [| apply NoDup_positions].
  intros ij ij' Hij Hij' Heq. apply cle_injective; assumption.
Qed.

Lemma etatPeuple_complet : enumerationComplete p (etatPeuple p (Anneau.ND p)).
Proof.
  intros i Hi.
  destruct (etatPeuple_invariant p ED_injective NU_positif (Anneau.ND p))
    as (Hdans & _); [lia |].
  apply Hdans. exact Hi.
Qed.

(** The assembler never fails on a ring whose domains all have users. *)
Lemma assembleRing_effet : Anneau.assembleRing p = (Retour tt, (etatAssemble p)).
Proof.
  unfold Anneau.assembleRing.
  rewrite (lier_retour _ _ _ _ _ (peupler_effet p)).
  apply generer_effet. apply etatPeuple_complet.
Qed.

Lemma etatAssemble_consignes :
  Anneau.consignes (etatAssemble p)
  = foldl inserer ∅ ((fun ij => (cle p ij, consigneAttendue p ij)) <$> (positions p)).
Proof.
  unfold etatAssemble.
  destruct (effetConsigne_foldl (positions p) (etatPeuple p (Anneau.ND p)))
    as (_ & _ & _ & ->).
  destruct (etatPeuple_invariant p ED_injective NU_positif (Anneau.ND p))
    as (_ & _ & _ & ->); [lia |].
  reflexivity.
Qed.

(** The instructions of the table are the expected instructions of the
    positions of the ring, each under its key. *)
Lemma etatAssemble_consigne k c :
  Anneau.consignes (etatAssemble p) !! k = Some c
  <-> exists ij, ij ∈ positions p /\ k = cle p ij /\ c = consigneAttendue p ij.
Proof.
  rewrite etatAssemble_consignes, (inserer_lookup _ _ _ NoDup_cles).
  rewrite list_elem_of_fmap. split.
  - intros (ij & Heq & Hij). injection Heq as -> ->. exists ij. auto.
  - intros (ij & Hij & -> & ->). exists ij. auto.
Qed.

Lemma etatAssemble_population i :
  i < Anneau.ND p ->
  Anneau.EPop (etatAssemble p) !! Anneau.ED p i = Some (utilisateurs p i)
  /\ Anneau.population (etatAssemble p) p i = tableUtilisateurs p i.
Proof.
  intros Hi. unfold etatAssemble, Anneau.population.
  destruct (effetConsigne_foldl (positions p) (etatPeuple p (Anneau.ND p)))
    as (-> & _ & -> & _).
  destruct (etatPeuple_invariant p ED_injective NU_positif (Anneau.ND p))
    as (Hdans & _); [lia |].
  destruct (Hdans i Hi) as [-> ->]. split; reflexivity.
Qed.


Lemma NoDup_identifiants i :
  i < Anneau.ND p ->
  NoDup ((fun u => (Anneau.ID u, u)) <$> utilisateurs p i).*1.
Proof.
  intros Hi. unfold utilisateurs. rewrite <- !list_fmap_compose.
  apply NoDup_fmap_2_strong; [| apply NoDup_seq].
  intros j j' Hj Hj' Heq. apply elem_of_seq in Hj, Hj'. simpl in Heq.
  apply (ID_distincts i j j'); [exact Hi | lia | lia | exact Heq].
Qed.

Lemma tableUtilisateurs_taille i :
  i < Anneau.ND p -> size (tableUtilisateurs p i) = Anneau.NU p i.
Proof.
  intros Hi. unfold tableUtilisateurs.
  rewrite (inserer_taille _ (NoDup_identifiants i Hi)).
  unfold utilisateurs. rewrite !length_fmap, length_seq. reflexivity.
Qed.

Lemma tableUtilisateurs_lookup i j :
  i < Anneau.ND p -> j < Anneau.NU p i ->
  tableUtilisateurs p i !! Anneau.identifiant p i j
  = Some (Anneau.creerUtilisateur p i j).
Proof.
  intros Hi Hj. unfold tableUtilisateurs.
  apply (inserer_lookup _ _ _ (NoDup_identifiants i Hi)).
  apply list_elem_of_fmap. exists (Anneau.creerUtilisateur p i j).
  split; [reflexivity |]. unfold utilisateurs.
  apply list_elem_of_fmap. exists j. split; [reflexivity |].
  apply elem_of_seq. lia.
Qed.

End Generation.

(** ** Counting users and instructions *)

Section Denombrement.
Variable p : Anneau.Parametres.
Hypothesis NU_positif : domainesPeuples p.
Hypothesis ED_injective : enumerationInjective p.
Hypothesis ID_distincts : identifiantsDistincts p.

Lemma etatAssemble_taille_population i :
  i < Anneau.ND p ->
  size (Anneau.population (etatAssemble p) p i) = Anneau.NU p i.
Proof.
  intros Hi.
  destruct (etatAssemble_population p NU_positif ED_injective i Hi) as [_ ->].
  apply tableUtilisateurs_taille; assumption.
Qed.

Lemma etatAssemble_nombreUtilisateurs :
  Anneau.nombreUtilisateurs (etatAssemble p) p
  = sum_list_with (Anneau.NU p) (seq 0 (Anneau.ND p)).
Proof.
  unfold Anneau.nombreUtilisateurs. apply sum_list_with_egal.
  intros i Hi. apply elem_of_seq in Hi.
  apply etatAssemble_taille_population. lia.
Qed.

Lemma etatAssemble_nombreConsignes :
  Anneau.nombreConsignes (etatAssemble p)
  = sum_list_with (Anneau.NU p) (seq 0 (Anneau.ND p)).
Proof.
  unfold Anneau.nombreConsignes.
  rewrite (etatAssemble_consignes p NU_positif ED_injective).
  rewrite (inserer_taille _ (NoDup_cles p ED_injective ID_distincts)).
  rewrite length_fmap. apply length_positions.
Qed.

(** The instruction of a position of the ring is in the table, under
    the key of the position. *)
Lemma etatAssemble_consigne_position i j :
  i < Anneau.ND p -> j < Anneau.NU p i ->
  Anneau.consignes (etatAssemble p)
    !! (Anneau.ED p i, Anneau.identifiant p i j)
  = Some (consigneAttendue p (i, j)).
Proof.
  intros Hi Hj.
  apply (etatAssemble_consigne p NU_positif ED_injective ID_distincts).
  exists (i, j). split; [apply elem_of_positions; split; assumption |].
  split; reflexivity.
Qed.

Lemma etatAssemble_utilisateur i j :
  i < Anneau.ND p -> j < Anneau.NU p i ->
  Anneau.population (etatAssemble p) p i !! Anneau.identifiant p i j
  = Some (Anneau.creerUtilisateur p i j).
Proof.
  intros Hi Hj.
  destruct (etatAssemble_population p NU_positif ED_injective i Hi) as [_ ->].
  apply tableUtilisateurs_lookup; assumption.
Qed.

End Denombrement.

(** The hypotheses on a scenario, in a form that is checked by
    computation on a concrete one. *)
Lemma enumerationInjective_NoDup (p : Anneau.Parametres) :
  NoDup (Anneau.ED p <$> seq 0 (Anneau.ND p)) -> enumerationInjective p.
Proof.
  intros Hnd i i' Hi Hi' Heq.
  apply (proj1 (NoDup_alt _) Hnd i i' (Anneau.ED p i));
    rewrite list_lookup_fmap, lookup_seq_lt by assumption; simpl;
    congruence.
Qed.

Lemma identifiantsDistincts_NoDup (p : Anneau.Parametres) :
  Forall (fun i => NoDup (Anneau.identifiant p i <$> seq 0 (Anneau.NU p i)))
         (seq 0 (Anneau.ND p)) ->
  identifiantsDistincts p.
Proof.
  intros Hall i j j' Hi Hj Hj' Heq.
  rewrite Forall_forall in Hall.
  assert (i ∈ seq 0 (Anneau.ND p)) as Hin by (apply elem_of_seq; lia).
  apply (proj1 (NoDup_alt _) (Hall i Hin) j j' (Anneau.identifiant p i j));
    rewrite list_lookup_fmap, lookup_seq_lt by assumption; simpl;
    congruence.
Qed.

Lemma domainesPeuples_Forall (p : Anneau.Parametres) :
  Forall (fun i => 0 < Anneau.NU p i) (seq 0 (Anneau.ND p)) ->
  domainesPeuples p.
Proof.
  intros Hall i Hi. rewrite Forall_forall in Hall.
  apply Hall. apply elem_of_seq. lia.
Qed.



(** ** What the assembler produces *)

Section ProprietesAnneau.
Variable p : Anneau.Parametres.


(** C4. For every [ND >= 2] and all-positive [NU], the instruction made
    for the sender position [(i, j)] (every instruction of the table is
    one of them) addresses, in the domain [ED(k)] with
    [k = (i + ND div 2) mod ND], the user
    [EPop(ED(k))[(i + j) mod NU(k)]], and that user is in the population
    assembled for [ED(k)] under its identifier. *)
Theorem assembleRing_destinataire :
  enumerationInjective p -> identifiantsDistincts p ->
  2 <= Anneau.ND p -> domainesPeuples p ->
  exists a,
    Anneau.assembleRing p = (Retour tt, a)
    /\ (forall i j, i < Anneau.ND p -> j < Anneau.NU p i ->
          let k := (i + Anneau.ND p / 2) mod Anneau.ND p in
          let r := (i + j) mod Anneau.NU p k in
          exists c u,
            Anneau.consignes a
              !! (Anneau.ED p i, Anneau.identifiant p i j) = Some c
            /\ Anneau.domaineDestinataire c = Anneau.ED p k
            /\ Anneau.EPop a !! Anneau.ED p k ≫= (.!! r) = Some u
            /\ Anneau.utilisateurDestinataire c = Anneau.ID u
            /\ Anneau.population a p k !! Anneau.ID u = Some u)
    /\ (forall key c, Anneau.consignes a !! key = Some c ->
          exists i j, i < Anneau.ND p /\ j < Anneau.NU p i
            /\ key = (Anneau.ED p i, Anneau.identifiant p i j)).
Proof.
  intros HED HID _ HNU. exists (etatAssemble p).
  split; [exact (assembleRing_effet p HNU HED) |]. split.
  - intros i j Hi Hj k r.
    assert (k < Anneau.ND p) as Hk by exact (oppose_dans_anneau p i Hi).
    assert (r < Anneau.NU p k) as Hr
      by exact (destinataire_dans_domaine p HNU i j Hi).
    exists (consigneAttendue p (i, j)), (Anneau.creerUtilisateur p k r).
    destruct (etatAssemble_population p HNU HED k Hk) as [HE HP].
    split; [| split; [reflexivity | split; [| split; [reflexivity |]]]].
    + apply (etatAssemble_consigne p HNU HED HID). exists (i, j).
      split; [apply elem_of_positions; split; assumption |].
      split; reflexivity.
    + rewrite HE. simpl. apply utilisateurs_lookup. exact Hr.
    + rewrite HP. apply tableUtilisateurs_lookup; assumption.
  - intros key c Hkc.
    apply (etatAssemble_consigne p HNU HED HID) in Hkc
      as ([i j] & [Hi Hj]%elem_of_positions & -> & ->).
    exists i, j. repeat split; assumption.
Qed.

End ProprietesAnneau.

(** ** The two scenarios of the specification *)

Section Scenarios.
Variable ed : nat -> Identifiant domaine.
Variable idu : nat -> nat -> Identifiant utilisateur.
Variable msg : nat -> nat -> string.

Lemma anneauCinq_peuple : domainesPeuples (anneauCinq ed idu msg).
Proof. apply domainesPeuples_Forall. repeat constructor. Qed.

Lemma anneauQuatre_peuple : domainesPeuples (anneauQuatre ed idu msg).
Proof. apply domainesPeuples_Forall. repeat constructor. Qed.

(** With one user per domain, the identifiers of a domain are distinct. *)
Lemma anneauQuatre_identifiants : identifiantsDistincts (anneauQuatre ed idu msg).
Proof.
  intros i j j' Hi Hj Hj' _. simpl in Hi, Hj, Hj'.
  do 4 (destruct i as [|i]; [simpl in Hj, Hj'; lia |]). lia.
Qed.

(** C5. For [ND = 5] and [NU = [2,1,1,1,1]] the offset of the ring is
    the truncated quotient [5 div 2 = 2]; the two users of the domain 0
    (indices 0 and 1) have two instructions, under distinct keys, and
    both address the only user of the domain 2, the receiver indices
    [(0+0) mod 1] and [(0+1) mod 1] being 0: the collision takes place. *)
Theorem anneauCinq_collision :
  enumerationInjective (anneauCinq ed idu msg) -> identifiantsDistincts (anneauCinq ed idu msg) ->
  Anneau.ND (anneauCinq ed idu msg) / 2 = 2
  /\ Anneau.oppose (anneauCinq ed idu msg) 0 = 2
  /\ (0 + 0) mod Anneau.NU (anneauCinq ed idu msg) 2 = 0
  /\ (0 + 1) mod Anneau.NU (anneauCinq ed idu msg) 2 = 0
  /\ exists a c0 c1,
       Anneau.assembleRing (anneauCinq ed idu msg) = (Retour tt, a)
       /\ size (Anneau.population a (anneauCinq ed idu msg) 0) = 2
       /\ size (Anneau.population a (anneauCinq ed idu msg) 2) = 1
       /\ Anneau.population a (anneauCinq ed idu msg) 2 !! idu 2 0
          = Some (Anneau.creerUtilisateur (anneauCinq ed idu msg) 2 0)
       /\ Anneau.consignes a !! (ed 0, idu 0 0) = Some c0
       /\ Anneau.consignes a !! (ed 0, idu 0 1) = Some c1
       /\ (ed 0, idu 0 0) <> (ed 0, idu 0 1)
       /\ Anneau.domaineDestinataire c0 = ed 2
       /\ Anneau.utilisateurDestinataire c0 = idu 2 0
       /\ Anneau.domaineDestinataire c1 = ed 2
       /\ Anneau.utilisateurDestinataire c1 = idu 2 0.
Proof.
  intros HED HID. pose proof anneauCinq_peuple as HNU.
  do 4 (split; [reflexivity |]).
  exists (etatAssemble (anneauCinq ed idu msg)),
         (consigneAttendue (anneauCinq ed idu msg) (0, 0)),
         (consigneAttendue (anneauCinq ed idu msg) (0, 1)).
  split; [exact (assembleRing_effet _ HNU HED) |].
  split; [apply (etatAssemble_taille_population _ HNU HED HID); simpl; lia |].
  split; [apply (etatAssemble_taille_population _ HNU HED HID); simpl; lia |].
  split; [apply (etatAssemble_utilisateur _ HNU HED HID); simpl; lia |].
  split; [apply (etatAssemble_consigne_position _ HNU HED HID); simpl; lia |].
  split; [apply (etatAssemble_consigne_position _ HNU HED HID); simpl; lia |].
  split; [| repeat split].
  intros Heq. injection Heq as Heq.
  apply (HID 0 0 1) in Heq; simpl; lia.
Qed.

(** C6. For [ND = 4] and [NU = [1,1,1,1]] the assembler leaves 4 users
    and 4 instructions; the (sender domain, receiver domain) pairs over
    the instructions are exactly (0,2), (1,3), (2,0), (3,1), read
    through the enumeration [ED]; the user of the domain 0 is paired
    with the user of index [(0+0) mod 1 = 0] of the domain
    [(0+2) mod 4 = 2], and the domain 1 with the domain 3 likewise. *)
Theorem anneauQuatre_appariement :
  enumerationInjective (anneauQuatre ed idu msg) ->
  exists a,
    Anneau.assembleRing (anneauQuatre ed idu msg) = (Retour tt, a)
    /\ Anneau.nombreUtilisateurs a (anneauQuatre ed idu msg) = 4
    /\ Anneau.nombreConsignes a = 4
    /\ Anneau.pairesDomaines a
       = {[ (ed 0, ed 2); (ed 1, ed 3); (ed 2, ed 0); (ed 3, ed 1) ]}
    /\ (0 + 2) mod 4 = 2 /\ (0 + 0) mod 1 = 0
    /\ (exists c0,
          Anneau.consignes a !! (ed 0, idu 0 0) = Some c0
          /\ Anneau.domaineDestinataire c0 = ed 2
          /\ Anneau.utilisateurDestinataire c0 = idu 2 0)
    /\ (exists c1,
          Anneau.consignes a !! (ed 1, idu 1 0) = Some c1
          /\ Anneau.domaineDestinataire c1 = ed 3
          /\ Anneau.utilisateurDestinataire c1 = idu 3 0).
Proof.
  intros HED. pose proof anneauQuatre_peuple as HNU.
  pose proof anneauQuatre_identifiants as HID.
  exists (etatAssemble (anneauQuatre ed idu msg)).
  split; [exact (assembleRing_effet _ HNU HED) |].
  split; [exact (etatAssemble_nombreUtilisateurs _ HNU HED HID) |].
  split; [exact (etatAssemble_nombreConsignes _ HNU HED HID) |].
  split; [| split; [reflexivity | split; [reflexivity | split]]].
  - apply set_eq. intros [d d']. unfold Anneau.pairesDomaines.
    rewrite elem_of_map_to_set. split.
    + intros (k & c & Hkc & Heq).
      apply (etatAssemble_consigne _ HNU HED HID) in Hkc
        as ([i j] & [Hi Hj]%elem_of_positions & -> & ->).
      simpl in Hi. injection Heq as <- <-.
      do 4 (destruct i as [|i]; [set_solver |]). lia.
    + intros Hd.
      assert (exists i, i < 4
                /\ (d, d') = (ed i, ed (Anneau.oppose (anneauQuatre ed idu msg) i)))
        as (i & Hi & Heq).
      { apply elem_of_union in Hd as [Hd | Hd];
          [apply elem_of_union in Hd as [Hd | Hd];
             [apply elem_of_union in Hd as [Hd | Hd] |] |];
          apply elem_of_singleton in Hd.
        - exists 0. split; [lia | exact Hd].
        - exists 1. split; [lia | exact Hd].
        - exists 2. split; [lia | exact Hd].
        - exists 3. split; [lia | exact Hd]. }
      exists (cle (anneauQuatre ed idu msg) (i, 0)), (consigneAttendue (anneauQuatre ed idu msg) (i, 0)).
      split; [| symmetry; exact Heq].
      apply (etatAssemble_consigne_position _ HNU HED HID); [exact Hi |].
      simpl. do 4 (destruct i as [|i]; [simpl; lia |]). lia.
  - exists (consigneAttendue (anneauQuatre ed idu msg) (0, 0)).
    split; [| split; reflexivity].
    apply (etatAssemble_consigne_position _ HNU HED HID); simpl; lia.
  - exists (consigneAttendue (anneauQuatre ed idu msg) (1, 0)).
    split; [| split; reflexivity].
    apply (etatAssemble_consigne_position _ HNU HED HID); simpl; lia.
Qed.

End Scenarios.

(** ** A concrete naming, for runs of the assembler *)

Lemma anneauCinqBinaire_enumeration : enumerationInjective anneauCinqBinaire.
Proof. apply enumerationInjective_NoDup. vm_compute. compute_done. Qed.

Lemma anneauCinqBinaire_identifiants : identifiantsDistincts anneauCinqBinaire.
Proof. apply identifiantsDistincts_NoDup. vm_compute. compute_done. Qed.

Lemma anneauQuatreBinaire_enumeration :
  enumerationInjective anneauQuatreBinaire.
Proof. apply enumerationInjective_NoDup. vm_compute. compute_done. Qed.

(** The binary notation is read back: [NOM] loses nothing. *)
Lemma valeurBinaire_chiffres (p : positive) : forall lu suite,
  valeurBinaire lu (Anneau.chiffres p suite)
  = valeurBinaire (prolonger lu p) suite.
Proof.
  induction p as [q IH | q IH |]; intros lu suite; simpl.
  - rewrite IH. reflexivity.
  - rewrite IH. simpl. rewrite N.add_0_r. reflexivity.
  - reflexivity.
Qed.

Lemma prolonger_zero (p : positive) : prolonger 0 p = Npos p.
Proof. induction p as [q IH | q IH |]; simpl; [rewrite IH .. |]; lia. Qed.

Lemma valeurBinaire_NOM (n : nat) : valeurBinaire 0 (Anneau.NOM n) = N.of_nat n.
Proof.
  unfold Anneau.NOM. destruct (N.of_nat n) as [|p]; [reflexivity |].
  rewrite valeurBinaire_chiffres. apply prolonger_zero.
Qed.

Lemma NOM_injective (n n' : nat) : Anneau.NOM n = Anneau.NOM n' -> n = n'.
Proof.
  intros Heq. apply Nat2N.inj.
  rewrite <- !valeurBinaire_NOM, Heq. reflexivity.
Qed.


Lemma identifiantBinaire_distincts (p : Anneau.Parametres) :
  Anneau.identifiant p = identifiantBinaire -> identifiantsDistincts p.
Proof.
  intros HID i j j' _ _ _ Heq. rewrite HID in Heq. injection Heq as Heq.
  apply (inj (String.app "")) in Heq.
  apply (inj (String.app (Anneau.NOM i))) in Heq.
  apply (inj (String.app "-")) in Heq. apply NOM_injective. exact Heq.
Qed.

(** The binary names of the first positions. *)
Example NOM_exemples :
  Anneau.NOM <$> [0; 1; 2; 5; 6] = ["0"; "1"; "10"; "101"; "110"].
Proof. reflexivity. Qed.



(** Witness of C4: in the ring of four domains with the binary naming,
    the user of the domain 1 addresses the user of index 0 of the
    domain 3, who is in the population of that domain. *)
Lemma assembleRing_destinataire_temoin :
  enumerationInjective anneauQuatreBinaire
  /\ identifiantsDistincts anneauQuatreBinaire
  /\ 2 <= Anneau.ND anneauQuatreBinaire
  /\ domainesPeuples anneauQuatreBinaire
  /\ exists a c u,
       Anneau.assembleRing anneauQuatreBinaire = (Retour tt, a)
       /\ Anneau.consignes a !! (EDbinaire 1, identifiantBinaire 1 0) = Some c
       /\ Anneau.domaineDestinataire c = EDbinaire 3
       /\ Anneau.EPop a !! EDbinaire 3 ≫= (.!! 0) = Some u
       /\ Anneau.utilisateurDestinataire c = Anneau.ID u
       /\ Anneau.population a anneauQuatreBinaire 3 !! Anneau.ID u = Some u.
Proof.
  pose proof anneauQuatreBinaire_enumeration as HED.
  pose proof (anneauQuatre_identifiants EDbinaire identifiantBinaire
                messageBinaire) as HID.
  assert (2 <= Anneau.ND anneauQuatreBinaire) as HND by (simpl; lia).
  pose proof (anneauQuatre_peuple EDbinaire identifiantBinaire messageBinaire)
    as HNU.
  split; [exact HED |]. split; [exact HID |]. split; [exact HND |].
  split; [exact HNU |].
  destruct (assembleRing_destinataire anneauQuatreBinaire HED HID HND HNU)
    as (a & Hrun & Hdest & _).
  destruct (Hdest 1 0) as (c & u & H); [simpl; lia | simpl; lia |].
  exists a, c, u. split; [exact Hrun | exact H].
Defined.

(** Witness of C5: the collision in the ring of five domains with the
    binary naming. *)
Lemma anneauCinq_collision_temoin :
  enumerationInjective anneauCinqBinaire
  /\ identifiantsDistincts anneauCinqBinaire
  /\ exists a c0 c1,
       Anneau.assembleRing anneauCinqBinaire = (Retour tt, a)
       /\ Anneau.consignes a !! (EDbinaire 0, identifiantBinaire 0 0) = Some c0
       /\ Anneau.consignes a !! (EDbinaire 0, identifiantBinaire 0 1) = Some c1
       /\ Anneau.utilisateurDestinataire c0 = identifiantBinaire 2 0
       /\ Anneau.utilisateurDestinataire c1 = identifiantBinaire 2 0.
Proof.
  pose proof anneauCinqBinaire_enumeration as HED.
  pose proof anneauCinqBinaire_identifiants as HID.
  split; [exact HED |]. split; [exact HID |].
  destruct (anneauCinq_collision EDbinaire identifiantBinaire messageBinaire
              HED HID)
    as (_ & _ & _ & _ & a & c0 & c1 & Hrun & _ & _ & _ & H0 & H1 & _
        & _ & Hd0 & _ & Hd1).
  exists a, c0, c1. repeat split; assumption.
Defined.

(** Witness of C6: the pairing in the ring of four domains with the
    binary naming. *)
Lemma anneauQuatre_appariement_temoin :
  enumerationInjective anneauQuatreBinaire
  /\ exists a,
       Anneau.assembleRing anneauQuatreBinaire = (Retour tt, a)
       /\ Anneau.nombreUtilisateurs a anneauQuatreBinaire = 4
       /\ Anneau.nombreConsignes a = 4
       /\ Anneau.pairesDomaines a
          = {[ (EDbinaire 0, EDbinaire 2); (EDbinaire 1, EDbinaire 3);
               (EDbinaire 2, EDbinaire 0); (EDbinaire 3, EDbinaire 1) ]}.
Proof.
  pose proof anneauQuatreBinaire_enumeration as HED.
  split; [exact HED |].
  destruct (anneauQuatre_appariement EDbinaire identifiantBinaire
              messageBinaire HED)
    as (a & Hrun & Hu & Hc & Hp & _).
  exists a. repeat split; assumption.
Defined.

(** ** Runs of the assembler *)

(** The instructions of the two users of the domain 0 in the ring of
    five domains, computed. *)
Example anneauCinqBinaire_consignes :
  let a := (Anneau.assembleRing anneauCinqBinaire).2 in
  (Anneau.assembleRing anneauCinqBinaire).1 = Retour tt
  /\ Anneau.consignes a !! (EDbinaire 0, identifiantBinaire 0 0)
     = Some {| Anneau.domaineEmetteur := {| val := "DOM-0" |};
               Anneau.utilisateurEmetteur := {| val := "UTIL-0-0" |};
               Anneau.domaineDestinataire := {| val := "DOM-10" |};
               Anneau.utilisateurDestinataire := {| val := "UTIL-10-0" |};
               Anneau.contenu := "0,0" |}
  /\ Anneau.consignes a !! (EDbinaire 0, identifiantBinaire 0 1)
     = Some {| Anneau.domaineEmetteur := {| val := "DOM-0" |};
               Anneau.utilisateurEmetteur := {| val := "UTIL-0-1" |};
               Anneau.domaineDestinataire := {| val := "DOM-10" |};
               Anneau.utilisateurDestinataire := {| val := "UTIL-10-0" |};
               Anneau.contenu := "0,1" |}
  /\ Anneau.EPop a !! EDbinaire 2
     = Some [{| Anneau.ID := {| val := "UTIL-10-0" |}; Anneau.nom := "0" |}].
Proof. vm_compute. repeat split. Qed.

(** A domain without users chosen as receiver domain: the assembler
    fails fast at the first instruction, the population being made and
    the table of instructions still empty. *)
Example assembleRing_domaine_vide :
  let r := Anneau.assembleRing
             (Anneau.scenario [1; 1; 0; 1] EDbinaire identifiantBinaire
                messageBinaire) in
  r.1 = Exception "erreur de configuration du domaine"
  /\ Anneau.consignes r.2 = ∅
  /\ Anneau.EPop r.2 !! EDbinaire 2 = None
  /\ Anneau.EPop r.2 !! EDbinaire 3
     = Some [{| Anneau.ID := {| val := "UTIL-11-0" |}; Anneau.nom := "0" |}].
Proof. vm_compute. repeat split. Qed.

(* ===================================================================== *)
(** * Mutable arrays: the invariant and sequences of calls                *)
(* ===================================================================== *)

Section SuitesTableauMutable.
Variable T : Type.
Implicit Types (t : TableauMutable.FormatTableauMutable T)
               (c : Natif.Case T) (vs : list T).

(** X3. On a mutable array that satisfies [taille == tableau.length]
    and whose length is an array index (it has room for one more
    cell), [ajouterEnFin] keeps the invariant whatever is added
    ([undefined] too), and so does every call of [retirerEnFin] that
    returns a value. *)
Theorem invariant_conserve t :
  Natif.estIndice (length (TableauMutable.tableau t)) ->
  TableauMutable.invariant t ->
  (forall c, TableauMutable.invariant (TableauMutable.ajouterEnFin c t).2)
  /\ (forall v t', TableauMutable.retirerEnFin t = (Retour v, t') ->
        TableauMutable.invariant t'
        /\ TableauMutable.tableau t = TableauMutable.tableau t' ++ [Some v]).
Proof.
  unfold TableauMutable.invariant. intros _ Hinv. split.
  - intros c. rewrite ajouterEnFin_effet. simpl.
    rewrite length_app. simpl. lia.
  - intros v t' Hrun.
    destruct (tableau_vide_ou_dernier T (TableauMutable.tableau t))
      as [Hvide | (l & [w|] & Hl)].
    + rewrite (retirerEnFin_vide T t Hvide) in Hrun. discriminate.
    + rewrite (retirerEnFin_dernier_defini T t l w Hl) in Hrun.
      injection Hrun as <- <-. simpl. split; [| exact Hl].
      rewrite Hl, length_app in Hinv. simpl in Hinv. lia.
    + rewrite (retirerEnFin_dernier_indefini T t l Hl) in Hrun. discriminate.
Qed.

Lemma ajouterTous_effet vs : forall t,
  ajouterTous vs t
  = (Retour tt,
     {| TableauMutable.taille := TableauMutable.taille t + Z.of_nat (length vs);
        TableauMutable.tableau := TableauMutable.tableau t ++ (Some <$> vs);
        TableauMutable.mutable := TableauMutable.mutable t |}).
Proof.
  induction vs as [|v vs IH]; intros t.
  - destruct t as [n a m]. simpl. unfold retourner.
    rewrite Z.add_0_r, app_nil_r. reflexivity.
  - unfold ajouterTous in *. simpl.
    rewrite (lier_retour _ _ _ _ _ (ajouterEnFin_effet T t (Some v))).
    rewrite IH. simpl. do 2 f_equal.
    + lia.
    + rewrite <- app_assoc. reflexivity.
Qed.

Lemma retirerFois_effet vs : forall t l,
  TableauMutable.tableau t = l ++ (Some <$> vs) ->
  retirerFois (length vs) t
  = (Retour (reverse vs),
     {| TableauMutable.taille := TableauMutable.taille t - Z.of_nat (length vs);
        TableauMutable.tableau := l;
        TableauMutable.mutable := TableauMutable.mutable t |}).
Proof.
  induction vs as [|v vs IH] using rev_ind; intros t l Hl.
  - destruct t as [n a m]. simpl in *. unfold retourner.
    rewrite app_nil_r in Hl. subst a. rewrite Z.sub_0_r. reflexivity.
  - rewrite length_app, Nat.add_comm. simpl.
    rewrite fmap_app, app_assoc in Hl. simpl in Hl.
    rewrite (lier_retour _ _ _ _ _
               (retirerEnFin_dernier_defini T t _ v Hl)).
    erewrite lier_retour; [| apply (IH _ l); reflexivity].
    unfold retourner. simpl. rewrite reverse_snoc. do 2 f_equal. lia.
Qed.

(** X4. The end of a mutable array is a stack, as long as [taille]
    stays a safe integer and the array has room for the cells added
    (at most 2^32 - 1 cells in all): adding the values [v1 ... vn] with
    [ajouterEnFin], then calling [retirerEnFin] [n] times, returns
    [vn ... v1] and leaves the array as it was before the additions. *)
Theorem ajouter_puis_retirer_pile vs t :
  Natif.entierSur (TableauMutable.taille t) ->
  Natif.entierSur (TableauMutable.taille t + Z.of_nat (length vs)) ->
  (Z.of_nat (length (TableauMutable.tableau t)) + Z.of_nat (length vs)
   <= 2 ^ 32 - 1)%Z ->
  (ajouterTous vs ;;; retirerFois (length vs)) t = (Retour (reverse vs), t).
Proof.
  intros _ _ _.
  rewrite (lier_retour _ _ _ _ _ (ajouterTous_effet vs t)).
  rewrite (retirerFois_effet vs _ (TableauMutable.tableau t)) by reflexivity.
  destruct t as [n a m]. simpl. do 2 f_equal. lia.
Qed.

(** X5. Adding [undefined] at the end and removing at the end, on a
    mutable array whose [taille] is a safe integer and whose length is
    an array index (it has room for one more cell): [retirerEnFin] then
    throws; the [tableau] is back as it was but [taille] stays
    incremented, so an array that satisfied [taille == tableau.length]
    no longer does. *)
Theorem ajouter_indefini_puis_retirer t :
  Natif.entierSur (TableauMutable.taille t) ->
  Natif.estIndice (length (TableauMutable.tableau t)) ->
  (TableauMutable.ajouterEnFin None ;;; TableauMutable.retirerEnFin) t
  = (Exception "[Exception : retirerEnFin() non défini.]",
     {| TableauMutable.taille := TableauMutable.taille t + 1;
        TableauMutable.tableau := TableauMutable.tableau t;
        TableauMutable.mutable := TableauMutable.mutable t |})
  /\ (TableauMutable.invariant t ->
      ~ TableauMutable.invariant
          ((TableauMutable.ajouterEnFin None ;;; TableauMutable.retirerEnFin) t).2).
Proof.
  intros _ _.
  assert ((TableauMutable.ajouterEnFin None ;;; TableauMutable.retirerEnFin) t
          = (Exception "[Exception : retirerEnFin() non défini.]",
             {| TableauMutable.taille := TableauMutable.taille t + 1;
                TableauMutable.tableau := TableauMutable.tableau t;
                TableauMutable.mutable := TableauMutable.mutable t |})) as Hrun.
  { rewrite (lier_retour _ _ _ _ _ (ajouterEnFin_effet T t None)).
    rewrite (retirerEnFin_dernier_indefini T _ (TableauMutable.tableau t))
      by reflexivity.
    reflexivity. }
  split; [exact Hrun |].
  rewrite Hrun. unfold TableauMutable.invariant. simpl. lia.
Qed.

(** X6. Reading after [ajouterEnFin(t, x)], on a mutable array whose
    [taille] is a safe integer and whose length is an array index (it
    has room for one more cell): [valeur] at the former length is [x],
    [valeur] at every position before is what it was, and [taille] is
    one more. *)
Theorem valeur_apres_ajouterEnFin t c :
  Natif.entierSur (TableauMutable.taille t) ->
  Natif.estIndice (length (TableauMutable.tableau t)) ->
  let t' := (TableauMutable.ajouterEnFin c t).2 in
  ModuleTableau.valeur (ModuleTableau.commeTableau t')
    (length (TableauMutable.tableau t)) = c
  /\ (forall i, i < length (TableauMutable.tableau t) ->
        ModuleTableau.valeur (ModuleTableau.commeTableau t') i
        = ModuleTableau.valeur (ModuleTableau.commeTableau t) i)
  /\ ModuleTableau.taille (ModuleTableau.commeTableau t')
     = (ModuleTableau.taille (ModuleTableau.commeTableau t) + 1)%Z.
Proof.
  intros _ _.
  rewrite ajouterEnFin_effet. simpl.
  unfold ModuleTableau.valeur, ModuleTableau.taille, Natif.lireIndice. simpl.
  split; [| split; [| reflexivity]].
  - rewrite lookup_app_r by lia. rewrite Nat.sub_diag. reflexivity.
  - intros i Hi. rewrite lookup_app_l by exact Hi. reflexivity.
Qed.

End SuitesTableauMutable.

(** Witness of X3: the invariant on [[1; 2]] and after a call of each
    function. *)
Lemma invariant_conserve_temoin :
  Natif.estIndice
    (length (TableauMutable.tableau
               (TableauMutable.creerEnveloppeMutable [Some 1; Some 2])))
  /\ TableauMutable.invariant
       (TableauMutable.creerEnveloppeMutable [Some 1; Some 2])
  /\ TableauMutable.invariant
       (TableauMutable.ajouterEnFin None
          (TableauMutable.creerEnveloppeMutable [Some 1; Some 2])).2
  /\ TableauMutable.invariant
       (TableauMutable.retirerEnFin
          (TableauMutable.creerEnveloppeMutable [Some 1; Some 2])).2.
Proof.
  assert (TableauMutable.invariant
            (TableauMutable.creerEnveloppeMutable [Some 1; Some 2])) as Hinv
    by reflexivity.
  assert (Natif.estIndice
            (length (TableauMutable.tableau
                       (TableauMutable.creerEnveloppeMutable
                          [Some 1; Some 2])))) as Hind
    by (unfold Natif.estIndice; simpl; lia).
  split; [exact Hind |]. split; [exact Hinv |].
  destruct (invariant_conserve nat _ Hind Hinv) as [Hajout Hretrait].
  split; [apply Hajout |].
  apply (Hretrait 2). reflexivity.
Defined.

(* ===================================================================== *)
(** * The module functions: application, reduction, conversion            *)
(* ===================================================================== *)

Section ProprietesModuleTableau.
Context {T U : Type}.
Implicit Types (t : Tableau.FormatTableau T) (vs : list T)
               (f : T -> Natif.Case U).

(** The loop [r[i] = f(v)] over an array of values, entered at the
    position [k] with [k] cells written and [m] holes after them: the
    images follow the cells written, over the holes first. *)
Lemma boucle_affecter f vs : forall k (fait : list (Natif.Case U)) m,
  length fait = k ->
  pourChaque (ModuleTableau.entreesDepuis k (Some <$> vs))
    (fun iv => ModuleTableau.affecter iv.1 (f iv.2))
    (fait ++ replicate m None)
  = (Retour tt, (fait ++ (f <$> vs)) ++ replicate (m - length vs) None).
Proof.
  induction vs as [|v vs IH]; intros k fait m Hk; simpl.
  - unfold retourner. rewrite app_nil_r, Nat.sub_0_r. reflexivity.
  - assert (ModuleTableau.affecter k (f v) (fait ++ replicate m None)
            = (Retour tt, (fait ++ [f v]) ++ replicate (m - 1) None)) as Hpas.
    { unfold ModuleTableau.affecter, modifier, Natif.ecrireIndice. f_equal.
      destruct m as [|m]; simpl.
      - rewrite !app_nil_r. rewrite decide_False by lia.
        replace (k - length fait) with 0 by lia. reflexivity.
      - rewrite length_app. simpl. rewrite decide_True by lia.
        rewrite insert_app_r_alt by lia.
        replace (k - length fait) with 0 by lia. simpl.
        rewrite Nat.sub_0_r, <- app_assoc. reflexivity. }
    rewrite (lier_retour _ _ _ _ _ Hpas).
    etransitivity;
      [apply (IH (S k) (fait ++ [f v]) (m - 1)); rewrite length_app; simpl; lia |].
    rewrite <- (app_assoc fait [f v]). simpl.
    replace (m - 1 - length vs) with (m - S (length vs)) by lia.
    reflexivity.
Qed.

Lemma iterer_affecter t f vs m :
  Tableau.tableau t = Some <$> vs ->
  (ModuleTableau.iterer (fun i v => ModuleTableau.affecter i (f v)) t
     (replicate m None)).2
  = (f <$> vs) ++ replicate (m - length vs) None.
Proof.
  intros Hvs. unfold ModuleTableau.iterer, ModuleTableau.entrees.
  rewrite Hvs.
  change (replicate m None) with ([] ++ replicate m (@None U)).
  rewrite (boucle_affecter f vs 0 [] m eq_refl). reflexivity.
Qed.

Lemma iterer_affecter_vide t f vs :
  Tableau.tableau t = Some <$> vs ->
  (ModuleTableau.iterer (fun i v => ModuleTableau.affecter i (f v)) t []).2
  = f <$> vs.
Proof.
  intros Hvs. etransitivity; [exact (iterer_affecter t f vs 0 Hvs) |].
  simpl. apply app_nil_r.
Qed.

Lemma applicationFonctorielle_dense t f vs :
  Tableau.tableau t = Some <$> vs ->
  ModuleTableau.applicationFonctorielle t f
  = {| Tableau.taille := Z.of_nat (length vs); Tableau.tableau := f <$> vs |}.
Proof.
  intros Hvs. unfold ModuleTableau.applicationFonctorielle.
  rewrite (iterer_affecter_vide t f vs Hvs). unfold Tableau.enveloppe.
  rewrite length_fmap. reflexivity.
Qed.


Lemma reduction_dense t (neutre : T) (op : T -> T -> T) vs :
  Tableau.tableau t = Some <$> vs ->
  ModuleTableau.reduction t neutre op = foldl op neutre vs.
Proof.
  assert (forall ws k r,
            pourChaque (ModuleTableau.entreesDepuis k (Some <$> ws))
              (fun iv : nat * T => modifier (fun r => op r iv.2)) r
            = (Retour tt, foldl op r ws)) as Hboucle.
  { induction ws as [|w ws IH]; intros k r; simpl; [reflexivity |].
    unfold lier, modifier at 1. simpl. apply IH. }
  intros Hvs.
  unfold ModuleTableau.reduction, ModuleTableau.iterer, ModuleTableau.entrees.
  rewrite Hvs, Hboucle. reflexivity.
Qed.

(** X9. On an array whose cells all hold values, [reduction(t, neutre,
    op)] is the left fold [(...((neutre op t[0]) op t[1])...)]: it is
    [neutre] on the empty array, and adding [x] at the end makes it
    [op] of the former reduction and [x]. *)
Theorem reduction_pliage t (neutre : T) (op : T -> T -> T) vs :
  Tableau.tableau t = Some <$> vs ->
  ModuleTableau.reduction t neutre op = foldl op neutre vs
  /\ ModuleTableau.reduction Tableau.vide neutre op = neutre
  /\ (forall (m : TableauMutable.FormatTableauMutable T) (x : T),
        TableauMutable.tableau m = Some <$> vs ->
        ModuleTableau.reduction
          (ModuleTableau.commeTableau
             (TableauMutable.ajouterEnFin (Some x) m).2) neutre op
        = op (ModuleTableau.reduction t neutre op) x).
Proof.
  intros Hvs. rewrite (reduction_dense t neutre op vs Hvs).
  split; [reflexivity |]. split; [reflexivity |].
  intros m x Hm. rewrite (reduction_dense _ neutre op (vs ++ [x])).
  - rewrite foldl_app. reflexivity.
  - rewrite ajouterEnFin_effet. simpl. rewrite Hm, fmap_app. reflexivity.
Qed.

(** X10. On an array whose cells all hold values and whose [taille] is
    its length (below 2^32), the conversion built by
    [conversionFormatTableau(conv)] returns what
    [applicationFonctorielle(t, conv)] returns. *)
Theorem conversionFormatTableau_application t f vs :
  Tableau.tableau t = Some <$> vs ->
  Tableau.taille t = Z.of_nat (length vs) ->
  (Z.of_nat (length vs) < 2 ^ 32)%Z ->
  ModuleTableau.conversionFormatTableau f t
  = Retour (ModuleTableau.applicationFonctorielle t f).
Proof.
  intros Hvs Htaille Hborne.
  unfold ModuleTableau.conversionFormatTableau,
    ModuleTableau.nouveauTableauDeTaille,
    ModuleTableau.applicationFonctorielle.
  rewrite decide_True by lia. unfold Natif.nouveauTableau.
  rewrite (iterer_affecter t f vs _ Hvs).
  rewrite (iterer_affecter_vide t f vs Hvs).
  rewrite Htaille, Nat2Z.id, Nat.sub_diag. simpl. rewrite app_nil_r.
  reflexivity.
Qed.

(** X11. When [taille] is not the length of the array,
    [conversionFormatTableau(conv)] follows [taille]: a negative
    [taille] (or one from 2^32 on) makes [new Array] throw a
    [RangeError]; a [taille] above the length gives a result of that
    [taille], with the images followed by holes, so that reading the
    positions from the length on yields [undefined]. *)
Theorem conversionFormatTableau_taille_fausse t f :
  ((Tableau.taille t < 0 \/ 2 ^ 32 <= Tableau.taille t)%Z ->
     ModuleTableau.conversionFormatTableau f t
     = Exception "RangeError: Invalid array length")
  /\ (forall vs,
        Tableau.tableau t = Some <$> vs ->
        (Z.of_nat (length vs) <= Tableau.taille t < 2 ^ 32)%Z ->
        ModuleTableau.conversionFormatTableau f t
        = Retour {| Tableau.taille := Tableau.taille t;
                    Tableau.tableau :=
                      (f <$> vs)
                      ++ replicate (Z.to_nat (Tableau.taille t) - length vs)
                           None |}).
Proof.
  unfold ModuleTableau.conversionFormatTableau,
    ModuleTableau.nouveauTableauDeTaille.
  split.
  - intros Hhors. rewrite decide_False by lia. reflexivity.
  - intros vs Hvs Hborne. rewrite decide_True by lia.
    unfold Natif.nouveauTableau.
    rewrite (iterer_affecter t f vs _ Hvs).
    unfold Tableau.enveloppe. f_equal. f_equal.
    rewrite length_app, length_fmap, length_replicate. lia.
Qed.

End ProprietesModuleTableau.

(** X8. The functor laws on arrays whose cells all hold values: applying
    [f] (which returns values) and then [g] is applying their
    composition, and applying the identity gives the envelope of the
    array itself. *)
Theorem applicationFonctorielle_composition {T S U}
    (t : Tableau.FormatTableau T) (vs : list T) (f : T -> S)
    (g : S -> Natif.Case U) :
  Tableau.tableau t = Some <$> vs ->
  ModuleTableau.applicationFonctorielle
    (ModuleTableau.applicationFonctorielle t (fun v => Some (f v))) g
  = ModuleTableau.applicationFonctorielle t (fun v => g (f v))
  /\ ModuleTableau.applicationFonctorielle t Some
     = Tableau.enveloppe (Tableau.tableau t).
Proof.
  intros Hvs. split.
  - rewrite (applicationFonctorielle_dense t (fun v => Some (f v)) vs Hvs).
    rewrite (applicationFonctorielle_dense t (fun v => g (f v)) vs Hvs).
    rewrite (applicationFonctorielle_dense _ g (f <$> vs))
      by (simpl; rewrite <- list_fmap_compose; reflexivity).
    rewrite length_fmap, <- list_fmap_compose. reflexivity.
  - rewrite (applicationFonctorielle_dense t Some vs Hvs), Hvs.
    unfold Tableau.enveloppe. rewrite length_fmap. reflexivity.
Qed.

(* ===================================================================== *)
(** * Array envelopes                                                     *)
(* ===================================================================== *)

Lemma surEtat_objet {TIN TEX A}
    (this : EnveloppeMutable.TableauMutableParEnveloppe TIN TEX)
    (prog : Prog (TableauMutable.FormatTableauMutable TIN) A)
    (h : list (TableauMutable.FormatTableauMutable TIN))
    (o : TableauMutable.FormatTableauMutable TIN) :
  h !! EnveloppeMutable.etat this = Some o ->
  EnveloppeMutable.surEtat this prog h
  = ((prog o).1, <[EnveloppeMutable.etat this := (prog o).2]> h).
Proof.
  intros Ho. unfold EnveloppeMutable.surEtat. rewrite Ho.
  destruct (prog o). reflexivity.
Qed.

Section ProprietesEnveloppes.
Context {TIN TEX : Type}.
Implicit Types (conv : Natif.Case TIN -> Natif.Case TEX) (vs : list TIN)
               (h : list (TableauMutable.FormatTableauMutable TIN))
               (o : TableauMutable.FormatTableauMutable TIN).

(** The loop of the copy, on the object just allocated at the end of
    the heap. *)
Lemma boucle_copie (r : EnveloppeMutable.TableauMutableParEnveloppe TIN TEX)
    h vs : forall k o,
  EnveloppeMutable.etat r = length h ->
  pourChaque (ModuleTableau.entreesDepuis k (Some <$> vs))
    (fun iv : nat * TIN => EnveloppeMutable.ajouterEnFin r (Some iv.2))
    (h ++ [o])
  = (Retour tt,
     h ++ [{| TableauMutable.taille :=
                TableauMutable.taille o + Z.of_nat (length vs);
              TableauMutable.tableau :=
                TableauMutable.tableau o ++ (Some <$> vs);
              TableauMutable.mutable := TableauMutable.mutable o |}]).
Proof.
  intros k o Hr. revert k o.
  induction vs as [|v vs IH]; intros k o.
  - destruct o as [n a m]. simpl. unfold retourner.
    rewrite Z.add_0_r, app_nil_r. reflexivity.
  - assert (EnveloppeMutable.ajouterEnFin r (Some v) (h ++ [o])
            = (Retour tt, h ++ [(TableauMutable.ajouterEnFin (Some v) o).2]))
      as Hpas.
    { unfold EnveloppeMutable.ajouterEnFin.
      rewrite (surEtat_objet r _ _ o)
        by (rewrite Hr, lookup_app_r, Nat.sub_diag by lia; reflexivity).
      rewrite Hr, ajouterEnFin_effet. simpl. f_equal.
      rewrite insert_app_r_alt, Nat.sub_diag by lia. reflexivity. }
    etransitivity; [exact (lier_retour _ _ _ _ _ Hpas) |].
    etransitivity; [apply (IH (S k)) |].
    rewrite ajouterEnFin_effet. simpl. do 3 f_equal.
    rewrite <- app_assoc. simpl. f_equal. lia.
Qed.

(** X12. [creerTableauMutableParCopie(conv, t)], for an array [t] whose
    cells all hold values: a new object is allocated (no object of the
    heap is touched); its [tableau] has the cells of [t] and its
    [taille] their number, so it satisfies the invariant; read through
    the envelope returned, [taille()] is the length of [t] and
    [valeur(i)] the conversion of [t[i]]. *)
Theorem creerTableauMutableParCopie_copie conv vs h :
  let r := {| EnveloppeMutable.conversionInEx := conv;
              EnveloppeMutable.etat := length h |} in
  let h' := h ++ [TableauMutable.creerEnveloppeMutable (Some <$> vs)] in
  EnveloppeMutable.creerTableauMutableParCopie conv (Some <$> vs) h
  = (Retour r, h')
  /\ EnveloppeMutable.taille r h' = (Retour (Z.of_nat (length vs)), h')
  /\ (forall i, EnveloppeMutable.valeur r i h'
                = (Retour (conv (Natif.lireIndice (Some <$> vs) i)), h')).
Proof.
  intros r h'.
  assert (h' !! EnveloppeMutable.etat r
          = Some (TableauMutable.creerEnveloppeMutable (Some <$> vs))) as Hobj.
  { subst r h'. simpl. rewrite lookup_app_r, Nat.sub_diag by lia. reflexivity. }
  split; [| split].
  - unfold EnveloppeMutable.creerTableauMutableParCopie,
      EnveloppeMutable.creerTableauMutableVide, ModuleTableau.iterer,
      ModuleTableau.entrees.
    unfold lier at 1. simpl.
    rewrite (lier_retour _ _ _ _ _
               (boucle_copie r h vs 0 TableauMutable.creerVideMutable eq_refl)).
    unfold retourner. subst r h'. simpl.
    unfold TableauMutable.creerEnveloppeMutable.
    rewrite length_fmap. reflexivity.
  - unfold EnveloppeMutable.taille.
    rewrite (surEtat_objet r _ _ _ Hobj). simpl.
    rewrite list_insert_id by exact Hobj.
    unfold ModuleTableau.taille. simpl. rewrite length_fmap. reflexivity.
  - intros i. unfold EnveloppeMutable.valeur, EnveloppeMutable.valeurEtat.
    erewrite lier_retour; [reflexivity |].
    rewrite (surEtat_objet r _ _ _ Hobj). simpl.
    rewrite list_insert_id by exact Hobj. reflexivity.
Qed.

(** X13. [application(f)] of a mutable envelope makes an envelope on the
    very same state. Where the [taille] of that state is a safe integer
    and the length of its array an array index (it has room for one
    more cell): what is added through one is read through the other,
    converted by [f] after the conversion of the first, and what is
    added through the new envelope is removed through the first,
    leaving the heap as it was. *)
Theorem application_partage_etat {S'}
    (this : EnveloppeMutable.TableauMutableParEnveloppe TIN TEX)
    (f : Natif.Case TEX -> Natif.Case S') h o
    (x : Natif.Case TIN) (v : TIN) :
  h !! EnveloppeMutable.etat this = Some o ->
  Natif.entierSur (TableauMutable.taille o) ->
  Natif.estIndice (length (TableauMutable.tableau o)) ->
  let u := EnveloppeMutable.application this f in
  (EnveloppeMutable.ajouterEnFin this x ;;;
   EnveloppeMutable.valeur u (length (TableauMutable.tableau o))) h
  = (Retour (f (EnveloppeMutable.conversionInEx this x)),
     <[EnveloppeMutable.etat this := (TableauMutable.ajouterEnFin x o).2]> h)
  /\ (EnveloppeMutable.ajouterEnFin u (Some v) ;;;
      EnveloppeMutable.retirerEnFin this) h
     = (Retour v, h).
Proof.
  intros Ho _ _ u.
  assert (EnveloppeMutable.etat this < length h) as Hlt
    by (apply lookup_lt_is_Some; eexists; exact Ho).
  split.
  - unfold EnveloppeMutable.ajouterEnFin.
    erewrite lier_retour;
      [| rewrite (surEtat_objet this _ _ _ Ho), ajouterEnFin_effet;
         reflexivity].
    unfold EnveloppeMutable.valeur, EnveloppeMutable.valeurEtat.
    erewrite lier_retour;
      [| rewrite (surEtat_objet u _ _
                    {| TableauMutable.taille := TableauMutable.taille o + 1;
                       TableauMutable.tableau := TableauMutable.tableau o ++ [x];
                       TableauMutable.mutable := TableauMutable.mutable o |})
           by (apply list_lookup_insert_eq; exact Hlt);
         reflexivity].
    unfold retourner. simpl. unfold Natif.push.
    rewrite list_insert_insert_eq. f_equal. f_equal. f_equal.
    unfold ModuleTableau.valeur, Natif.lireIndice. simpl.
    rewrite lookup_app_r, Nat.sub_diag by lia. reflexivity.
  - unfold EnveloppeMutable.ajouterEnFin, EnveloppeMutable.retirerEnFin.
    erewrite lier_retour;
      [| rewrite (surEtat_objet u _ _ _ Ho), ajouterEnFin_effet;
         reflexivity].
    simpl.
    rewrite (surEtat_objet this _ _
               {| TableauMutable.taille := TableauMutable.taille o + 1;
                  TableauMutable.tableau := TableauMutable.tableau o ++ [Some v];
                  TableauMutable.mutable := TableauMutable.mutable o |})
      by (apply list_lookup_insert_eq; exact Hlt).
    rewrite (retirerEnFin_dernier_defini TIN _ (TableauMutable.tableau o) v)
      by reflexivity.
    simpl. rewrite list_insert_insert_eq. f_equal.
    replace (TableauMutable.taille o + 1 - 1)%Z
      with (TableauMutable.taille o) by lia.
    apply list_insert_id. destruct o; exact Ho.
Qed.

(** X14. Converting when the envelope is made and converting when it is
    read: [tableau(t).application(conv)] and [tableauGeneral(conv, t)],
    on an array [t] whose cells all hold values, give the same
    [valeur(i)] at every position of [t], the same [taille()] and the
    same [reduction]; outside the array the first reads [undefined] and
    the second [conv(undefined)]. *)
Theorem application_plate_et_generale conv vs :
  let plate :=
    EnveloppePlate.application (EnveloppePlate.tableau (Some <$> vs)) conv in
  let generale := EnveloppeTableau.tableauGeneral conv (Some <$> vs) in
  (forall i, i < length vs ->
     EnveloppePlate.valeur plate i = EnveloppeTableau.valeur generale i)
  /\ (forall i, length vs <= i ->
        EnveloppePlate.valeur plate i = None
        /\ EnveloppeTableau.valeur generale i = conv None)
  /\ EnveloppePlate.taille plate = EnveloppeTableau.taille generale
  /\ EnveloppePlate.estVide plate = EnveloppeTableau.estVide generale
  /\ (forall neutre op,
        EnveloppePlate.reduction plate neutre op
        = EnveloppeTableau.reduction generale neutre op).
Proof.
  intros plate generale.
  assert (EnveloppePlate.etat plate
          = {| Tableau.taille := Z.of_nat (length vs);
               Tableau.tableau := (fun v => conv (Some v)) <$> vs |}) as Hplate.
  { subst plate. unfold EnveloppePlate.application. simpl.
    apply applicationFonctorielle_dense. reflexivity. }
  assert (EnveloppePlate.taille plate = EnveloppeTableau.taille generale)
    as Htaille.
  { unfold EnveloppePlate.taille, EnveloppeTableau.taille, ModuleTableau.taille.
    rewrite Hplate. simpl. rewrite length_fmap. reflexivity. }
  split; [| split; [| split; [exact Htaille | split]]].
  - intros i Hi.
    unfold EnveloppePlate.valeur, EnveloppeTableau.valeur,
      EnveloppeTableau.valeurEtat, ModuleTableau.valeur, Natif.lireIndice.
    rewrite Hplate. simpl. rewrite !list_lookup_fmap.
    destruct (lookup_lt_is_Some_2 vs i Hi) as [v ->]. reflexivity.
  - intros i Hi.
    unfold EnveloppePlate.valeur, EnveloppeTableau.valeur,
      EnveloppeTableau.valeurEtat, ModuleTableau.valeur, Natif.lireIndice.
    rewrite Hplate. simpl. rewrite !list_lookup_fmap.
    rewrite (lookup_ge_None_2 vs i) by lia. split; reflexivity.
  - unfold EnveloppePlate.estVide, EnveloppeTableau.estVide.
    rewrite Htaille. reflexivity.
  - intros neutre op. reflexivity.
Qed.

(** X15. [reduction(neutre, op)] of an envelope whose conversion
    returns a value on every value ([g]), on a state whose cells all
    hold values: the left fold of [op] over the converted values, that
    is the fold of [fun r v => op r (g v)] over the state. *)
Theorem reduction_des_valeurs_converties
    (this : EnveloppeTableau.TableauParEnveloppe TIN TEX) (g : TIN -> TEX) vs
    (neutre : TEX) (op : TEX -> TEX -> TEX) :
  (forall v, EnveloppeTableau.conversionInEx this (Some v) = Some (g v)) ->
  Tableau.tableau (EnveloppeTableau.etat this) = Some <$> vs ->
  EnveloppeTableau.reduction this neutre op
  = foldl (fun r v => op r (g v)) neutre vs.
Proof.
  intros Hconv Hvs. unfold EnveloppeTableau.reduction.
  rewrite (applicationFonctorielle_dense _ _ vs Hvs).
  rewrite (reduction_dense _ neutre op (g <$> vs)).
  - rewrite foldl_fmap. reflexivity.
  - simpl. rewrite <- list_fmap_compose. apply list_fmap_ext.
    intros i v _. apply Hconv.
Qed.

End ProprietesEnveloppes.

(* ===================================================================== *)
(** * The shuffle, whatever the draws                                     *)
(* ===================================================================== *)

Section ProprietesTirages.
Variables (T Generateur : Type).
Variable entierAleatoire : nat -> Generateur -> nat * Generateur.
Implicit Types (e : Tableau.Environnement T Generateur)
               (t : list (Natif.Case T)).

Lemma ecrireIndice_longueur t i (c : Natif.Case T) :
  length (Natif.ecrireIndice t i c) = Nat.max (length t) (S i).
Proof.
  unfold Natif.ecrireIndice. destruct (decide (i < length t)).
  - rewrite length_insert. lia.
  - rewrite !length_app, length_replicate. simpl. lia.
Qed.

Lemma echanger_longueur t i j :
  length (Tableau.echanger t i j)
  = Nat.max (Nat.max (length t) (S i)) (S j).
Proof. unfold Tableau.echanger. rewrite !ecrireIndice_longueur. reflexivity. Qed.

(** The states of the generator after the draws for the bounds of a
    list, in order. *)
Lemma boucleMelange_retourne i : forall t e,
  exists t',
    Tableau.boucleMelange entierAleatoire i t e
    = (Retour t',
       {| Tableau.tab := Tableau.tab e;
          Tableau.alea :=
            foldl (fun g k => (entierAleatoire k g).2) (Tableau.alea e)
                  (reverse (seq 1 i)) |})
    /\ length t <= length t'.
Proof.
  induction i as [|i IH]; intros t e.
  - exists t. destruct e as [tab0 g]. split; [reflexivity | lia].
  - simpl Tableau.boucleMelange. unfold lier, Tableau.tirer.
    destruct (entierAleatoire (S i) (Tableau.alea e)) as [j g] eqn:Hj.
    destruct (IH (Tableau.echanger t (S i) j)
                 {| Tableau.tab := Tableau.tab e; Tableau.alea := g |})
      as (t' & Hrun & Hlen).
    exists t'. split.
    + rewrite Hrun. cbn [Tableau.tab Tableau.alea]. do 2 f_equal.
      rewrite (seq_S i 1), reverse_app. simpl. rewrite Hj. reflexivity.
    + rewrite echanger_longueur in Hlen. lia.
Qed.

(** X16. [melange(tab)] returns on every array, whatever natural
    numbers the generator draws, bounded or not: it never throws and
    leaves [tab] as it was; the [taille] of the result is [tab.length] and its [tableau]
    is at least as long; the generator is asked [tab.length - 1] times,
    for the bounds [tab.length - 1] down to 1 in that order; on an array
    of at most one cell nothing is drawn and the result holds the cells
    of [tab]. *)
Theorem melange_retourne e :
  exists r,
    Tableau.melange entierAleatoire e
    = (Retour r,
       {| Tableau.tab := Tableau.tab e;
          Tableau.alea :=
            foldl (fun g k => (entierAleatoire k g).2) (Tableau.alea e)
                  (reverse (seq 1 (length (Tableau.tab e) - 1))) |})
    /\ Tableau.taille r = Z.of_nat (length (Tableau.tab e))
    /\ length (Tableau.tab e) <= length (Tableau.tableau r)
    /\ (length (Tableau.tab e) <= 1 -> Tableau.tableau r = Tableau.tab e).
Proof.
  destruct (boucleMelange_retourne (length (Tableau.tab e) - 1)
              (Tableau.tab e) e) as (t' & Hrun & Hlen).
  exists {| Tableau.taille := Z.of_nat (length (Tableau.tab e));
            Tableau.tableau := t' |}.
  split; [| split; [reflexivity | split; [exact Hlen |]]].
  - unfold Tableau.melange.
    unfold lier at 1, Tableau.longueurTab at 1; simpl.
    unfold lier at 1, Tableau.clesTab; simpl.
    rewrite (lier_retour _ _ _ _ _ (copier_recopie _ _ _ _ e)).
    rewrite recopier_cles.
    rewrite (lier_retour _ _ _ _ _ Hrun).
    reflexivity.
  - intros Hpetit. simpl.
    replace (length (Tableau.tab e) - 1) with 0 in Hrun by lia.
    simpl in Hrun. unfold retourner in Hrun. congruence.
Qed.

(** X17. The shuffle does not check what the generator returns. With a
    generator whose draws are array indices (below 2^32 - 1), on an
    array of two cells or more, a first draw from [tab.length] on makes
    the exchange write beyond the end of the array, and [melange]
    returns a format whose [tableau] is longer than its [taille],
    which is still [tab.length]. *)
Theorem melange_tirage_hors_bornes e :
  (forall i g, Natif.estIndice (entierAleatoire i g).1) ->
  2 <= length (Tableau.tab e) ->
  length (Tableau.tab e)
  <= (entierAleatoire (length (Tableau.tab e) - 1) (Tableau.alea e)).1 ->
  exists r e',
    Tableau.melange entierAleatoire e = (Retour r, e')
    /\ Tableau.taille r = Z.of_nat (length (Tableau.tab e))
    /\ length (Tableau.tab e) < length (Tableau.tableau r).
Proof.
  intros _ Hdeux Hhors.
  destruct (length (Tableau.tab e) - 1) as [|i] eqn:Hn; [lia |].
  destruct (entierAleatoire (S i) (Tableau.alea e)) as [j g] eqn:Hj.
  simpl in Hhors.
  destruct (boucleMelange_retourne i
              (Tableau.echanger (Tableau.tab e) (S i) j)
              {| Tableau.tab := Tableau.tab e; Tableau.alea := g |})
    as (t' & Hrun & Hlen).
  rewrite echanger_longueur in Hlen.
  eexists {| Tableau.taille := Z.of_nat (length (Tableau.tab e));
             Tableau.tableau := t' |}, _.
  split; [| split; [reflexivity | simpl; lia]].
  unfold Tableau.melange.
  unfold lier at 1, Tableau.longueurTab at 1; simpl.
  unfold lier at 1, Tableau.clesTab; simpl.
  rewrite (lier_retour _ _ _ _ _ (copier_recopie _ _ _ _ e)).
  rewrite recopier_cles. rewrite Hn.
  assert (Tableau.boucleMelange entierAleatoire (S i) (Tableau.tab e) e
          = (Retour t',
             {| Tableau.tab := Tableau.tab e;
                Tableau.alea :=
                  foldl (fun g k => (entierAleatoire k g).2) g
                        (reverse (seq 1 i)) |})) as Hboucle.
  { simpl Tableau.boucleMelange. unfold lier, Tableau.tirer.
    rewrite Hj. exact Hrun. }
  rewrite (lier_retour _ _ _ _ _ Hboucle).
  reflexivity.
Qed.

End ProprietesTirages.

(* ===================================================================== *)
(** * Chat formats: compositions                                          *)
(* ===================================================================== *)

Section CompositionsTchat.
Variables (FormatTableIdentification D : Type).
Implicit Types (w : Message.Monde D).

(** X18. A configuration is a node and a date: for every configuration
    [c], [configurationDeNoeudTchat(configurationTchat(c).noeud().val(),
    c.date)] encloses [c] itself; and [noeud()] reads [centre] and
    [voisins] only, so two configurations that differ by their date
    give the same node. *)
Theorem configuration_noeud_et_date
    (c : Configuration.FormatConfigurationTchat FormatTableIdentification D) :
  Configuration.valeur
    (Configuration.configurationDeNoeudTchat
       (Noeud.valeur (Configuration.noeud (Configuration.configurationTchat c)))
       (Configuration.date c))
  = c
  /\ (forall d,
        Configuration.noeud
          (Configuration.configurationTchat
             {| Configuration.configurationInitiale :=
                  Configuration.configurationInitiale c;
                Configuration.centre := Configuration.centre c;
                Configuration.voisins := Configuration.voisins c;
                Configuration.date := (d : D) |})
        = Configuration.noeud (Configuration.configurationTchat c)).
Proof.
  destruct c as [[] centre0 voisins0 date0]. split; [reflexivity |].
  intros d. reflexivity.
Qed.

(** X19. A communication on its way: [messageCommunication] followed by
    [transit()] of its result and [avecAccuseReception()] of the transit
    makes three objects, in that order after the objects of the world,
    of types [COM], [TRANSIT] and [AR], that carry the same identifier,
    sender, receiver, text and date; the clock is not read. *)
Theorem communication_transit_accuse w (id : Identifiant message)
    (idEmetteur idDestinataire : Identifiant sommet) (texte : string)
    (d : D) :
  let com := {| Message.ID := id;
                Message.ID_emetteur := idEmetteur;
                Message.ID_destinataire := idDestinataire;
                Message.type := Message.COM;
                Message.contenu := texte;
                Message.date := d |} in
  let n := length (Message.tas w) in
  (m <- Message.messageCommunication id idEmetteur idDestinataire texte d ;;
   t <- Message.transit m ;;
   a <- Message.avecAccuseReception t ;;
   retourner (m, t, a)) w
  = (Retour (n, S n, S (S n)),
     {| Message.tas := Message.tas w ++ [com; etatTransit com; etatAccuse com];
        Message.tic := Message.tic w |})
  /\ memesChampsHorsType (etatTransit com) com
  /\ memesChampsHorsType (etatAccuse com) com.
Proof.
  intros com n. split; [| split; repeat split].
  unfold Message.messageCommunication. fold com.
  destruct (nouveau_cree D w com) as (Hrun0 & _ & Hobj0 & _).
  rewrite (lier_retour _ _ _ _ _ Hrun0).
  destruct (transit_cree D _ _ com Hobj0) as (Hrun1 & _ & Hobj1 & _).
  rewrite (lier_retour _ _ _ _ _ Hrun1).
  destruct (avecAccuseReception_cree D _ _ (etatTransit com) Hobj1)
    as (Hrun2 & _).
  rewrite (lier_retour _ _ _ _ _ Hrun2).
  unfold retourner. simpl. rewrite !length_app. simpl.
  rewrite <- !app_assoc. simpl. subst n.
  rewrite !Nat.add_1_r. reflexivity.
Qed.

(** X20. Among the functions that make messages, only
    [messageErreurConnexion] reads the clock, and it reads it once: the
    others date their result from their arguments and leave the clock
    where it was, whether they return or throw. *)
Theorem horloge_lue_par_messageErreurConnexion (horloge : nat -> D) w
    (m : Message.Ref) (e : Message.FormatMessageTchat D)
    (code : Message.TypeMessageTchat) (texte : string)
    (id : Identifiant message) (idEmetteur idDestinataire : Identifiant sommet)
    (d : D) :
  Message.tic (Message.transit m w).2 = Message.tic w
  /\ Message.tic (Message.avecAccuseReception m w).2 = Message.tic w
  /\ Message.tic (Message.messageRetourErreur m code texte w).2 = Message.tic w
  /\ Message.tic (Message.messageTchat e w).2 = Message.tic w
  /\ Message.tic
       (Message.messageCommunication id idEmetteur idDestinataire texte d w).2
     = Message.tic w
  /\ Message.tic
       (Message.messageErreurConnexion horloge id idEmetteur texte w).2
     = S (Message.tic w).
Proof.
  assert (forall (A : Type) (k : Message.FormatMessageTchat D
                                 -> Prog (Message.Monde D) A),
            (forall o w0, Message.tic (k o w0).2 = Message.tic w0) ->
            forall w0, Message.tic ((o <- Message.valeur m ;; k o) w0).2
                       = Message.tic w0) as Hlire.
  { intros A k Hk w0. unfold lier, Message.valeur.
    destruct (Message.tas w0 !! m); [apply Hk | reflexivity]. }
  split_and!.
  - apply Hlire. reflexivity.
  - apply Hlire. reflexivity.
  - unfold Message.messageRetourErreur.
    do 4 (apply Hlire; intros ? ?). reflexivity.
  - reflexivity.
  - reflexivity.
  - reflexivity.
Qed.

End CompositionsTchat.

(* ===================================================================== *)
(** * Concrete runs of the properties above                               *)
(* ===================================================================== *)


(** Witness of X8: adding one, then doubling. *)
Lemma applicationFonctorielle_composition_temoin :
  Tableau.tableau formatExemple = Some <$> [1; 2; 3]
  /\ ModuleTableau.applicationFonctorielle
       (ModuleTableau.applicationFonctorielle formatExemple
          (fun v => Some (v + 1)))
       (fun v => Some (v * 2))
     = ModuleTableau.applicationFonctorielle formatExemple
         (fun v => Some ((v + 1) * 2)).
Proof.
  split; [reflexivity |].
  exact (proj1 (applicationFonctorielle_composition formatExemple [1; 2; 3]
                  (fun v => v + 1) (fun v => Some (v * 2)) eq_refl)).
Defined.

(** Witness of X9: the sum of [[1; 2; 3]]. *)
Lemma reduction_pliage_temoin :
  Tableau.tableau formatExemple = Some <$> [1; 2; 3]
  /\ ModuleTableau.reduction formatExemple 0 Nat.add = 6.
Proof.
  split; [reflexivity |].
  exact (proj1 (reduction_pliage formatExemple 0 Nat.add [1; 2; 3] eq_refl)).
Defined.

(** Witness of X10: the envelope of [[1; 2; 3]]. *)
Lemma conversionFormatTableau_application_temoin :
  Tableau.tableau (Tableau.enveloppe [Some 1; Some 2; Some 3])
  = Some <$> [1; 2; 3]
  /\ Tableau.taille (Tableau.enveloppe [Some 1; Some 2; Some 3])
     = Z.of_nat (length [1; 2; 3])
  /\ (Z.of_nat (length [1; 2; 3]) < 2 ^ 32)%Z
  /\ ModuleTableau.conversionFormatTableau (fun v => Some (v * 10))
       (Tableau.enveloppe [Some 1; Some 2; Some 3])
     = Retour (ModuleTableau.applicationFonctorielle
                 (Tableau.enveloppe [Some 1; Some 2; Some 3])
                 (fun v => Some (v * 10))).
Proof.
  split; [reflexivity |]. split; [reflexivity |]. split; [reflexivity |].
  apply (conversionFormatTableau_application
           (Tableau.enveloppe [Some 1; Some 2; Some 3])
           (fun v => Some (v * 10)) [1; 2; 3]);
    reflexivity.
Defined.

(** A [taille] above the length, and a negative one, computed. *)
Example conversionFormatTableau_exemple :
  ModuleTableau.conversionFormatTableau (fun v => Some (v * 10)) formatExemple
  = Retour {| Tableau.taille := 7;
              Tableau.tableau :=
                [Some 10; Some 20; Some 30; None; None; None; None] |}
  /\ ModuleTableau.conversionFormatTableau (fun v => Some (v * 10))
       {| Tableau.taille := -1; Tableau.tableau := [Some 1] |}
     = Exception "RangeError: Invalid array length".
Proof. split; vm_compute; reflexivity. Qed.

(** Witness of X13: the envelope on the object 0 and its application. *)
Lemma application_partage_etat_temoin :
  tasExemple !! EnveloppeMutable.etat enveloppeExemple
  = Some (TableauMutable.creerEnveloppeMutable [Some 1; Some 2])
  /\ Natif.entierSur
       (TableauMutable.taille
          (TableauMutable.creerEnveloppeMutable [Some 1; Some 2]))
  /\ Natif.estIndice
       (length (TableauMutable.tableau
                  (TableauMutable.creerEnveloppeMutable [Some 1; Some 2])))
  /\ (EnveloppeMutable.ajouterEnFin enveloppeExemple (Some 5) ;;;
      EnveloppeMutable.valeur
        (EnveloppeMutable.application enveloppeExemple doubler) 2) tasExemple
     = (Retour (Some 10),
        [{| TableauMutable.taille := 3;
            TableauMutable.tableau := [Some 1; Some 2; Some 5];
            TableauMutable.mutable := ZERO |}])
  /\ (EnveloppeMutable.ajouterEnFin
        (EnveloppeMutable.application enveloppeExemple doubler) (Some 7) ;;;
      EnveloppeMutable.retirerEnFin enveloppeExemple) tasExemple
     = (Retour 7, tasExemple).
Proof.
  assert (Natif.entierSur
            (TableauMutable.taille
               (TableauMutable.creerEnveloppeMutable [Some 1; Some 2])))
    as Hsur by (unfold Natif.entierSur; simpl; lia).
  assert (Natif.estIndice
            (length (TableauMutable.tableau
                       (TableauMutable.creerEnveloppeMutable
                          [Some 1; Some 2])))) as Hind
    by (unfold Natif.estIndice; simpl; lia).
  split; [reflexivity |]. split; [exact Hsur |]. split; [exact Hind |].
  exact (application_partage_etat enveloppeExemple doubler tasExemple
           (TableauMutable.creerEnveloppeMutable [Some 1; Some 2])
           (Some 5) 7 eq_refl Hsur Hind).
Defined.

(** Witness of X15: the sum of the doubles of [[1; 2; 3]]. *)
Lemma reduction_des_valeurs_converties_temoin :
  (forall v,
     EnveloppeTableau.conversionInEx
       (EnveloppeTableau.tableauGeneral doubler [Some 1; Some 2; Some 3])
       (Some v)
     = Some (v * 2))
  /\ Tableau.tableau
       (EnveloppeTableau.etat
          (EnveloppeTableau.tableauGeneral doubler [Some 1; Some 2; Some 3]))
     = Some <$> [1; 2; 3]
  /\ EnveloppeTableau.reduction
       (EnveloppeTableau.tableauGeneral doubler [Some 1; Some 2; Some 3])
       0 Nat.add
     = 12.
Proof.
  split; [intros v; reflexivity |]. split; [reflexivity |].
  exact (reduction_des_valeurs_converties
           (EnveloppeTableau.tableauGeneral doubler [Some 1; Some 2; Some 3])
           (fun v => v * 2) [1; 2; 3] 0 Nat.add
           (fun v => eq_refl) eq_refl).
Defined.

(** Witness of X17: two cells and a generator that draws 5. *)
Lemma melange_tirage_hors_bornes_temoin :
  (forall i g, Natif.estIndice (tirageConstant 5 i g).1)
  /\ 2 <= length [Some "a"; Some "b"]
  /\ length [Some "a"; Some "b"] <= (tirageConstant 5 1 tt).1
  /\ exists r e',
      Tableau.melange (tirageConstant 5)
        {| Tableau.tab := [Some "a"; Some "b"]; Tableau.alea := tt |}
      = (Retour r, e')
      /\ Tableau.taille r = 2%Z
      /\ 2 < length (Tableau.tableau r).
Proof.
  assert (forall i g, Natif.estIndice (tirageConstant 5 i g).1) as Hind
    by (intros i g; unfold Natif.estIndice; simpl; lia).
  assert (2 <= length [Some "a"; Some "b"]) as Hdeux by (simpl; lia).
  assert (length [Some "a"; Some "b"] <= (tirageConstant 5 1 tt).1) as Hhors
    by (simpl; lia).
  split; [exact Hind |]. split; [exact Hdeux |]. split; [exact Hhors |].
  exact (melange_tirage_hors_bornes string unit (tirageConstant 5)
           {| Tableau.tab := [Some "a"; Some "b"]; Tableau.alea := tt |}
           Hind Hdeux Hhors).
Defined.

(** The run of that witness, computed: the exchange of the positions 1
    and 5 leaves holes between them. *)
Example melange_hors_bornes_exemple :
  (Tableau.melange tirageBrut
     {| Tableau.tab := [Some "a"; Some "b"]; Tableau.alea := [5] |}).1
  = Retour {| Tableau.taille := 2;
              Tableau.tableau :=
                [Some "a"; None; None; None; None; Some "b"] |}.
Proof. reflexivity. Qed.

(* ===================================================================== *)
(** * Emptiness of a mutable envelope                                     *)
(* ===================================================================== *)

(** X21. [estVide()] of a mutable envelope tests [taille]: on a state
    that satisfies [taille == tableau.length] it returns [true] exactly
    when the [tableau] is empty, and it changes nothing. *)
Theorem estVide_sous_invariant {TIN TEX}
    (this : EnveloppeMutable.TableauMutableParEnveloppe TIN TEX)
    (h : list (TableauMutable.FormatTableauMutable TIN))
    (o : TableauMutable.FormatTableauMutable TIN) :
  h !! EnveloppeMutable.etat this = Some o ->
  TableauMutable.invariant o ->
  EnveloppeMutable.estVide this h
  = (Retour (match TableauMutable.tableau o with [] => true | _ => false end),
     h).
Proof.
  intros Ho Hinv. unfold EnveloppeMutable.estVide, EnveloppeMutable.taille.
  erewrite lier_retour;
    [| rewrite (surEtat_objet this _ _ o Ho); simpl;
       rewrite (list_insert_id _ _ _ Ho); reflexivity].
  unfold retourner, ModuleTableau.taille. simpl.
  unfold TableauMutable.invariant in Hinv. rewrite Hinv.
  destruct (TableauMutable.tableau o); reflexivity.
Qed.

(** Witness of X21: the envelope on a state of two cells is not empty. *)
Lemma estVide_sous_invariant_temoin :
  tasExemple !! EnveloppeMutable.etat enveloppeExemple
  = Some (TableauMutable.creerEnveloppeMutable [Some 1; Some 2])
  /\ TableauMutable.invariant
       (TableauMutable.creerEnveloppeMutable [Some 1; Some 2])
  /\ EnveloppeMutable.estVide enveloppeExemple tasExemple
     = (Retour false, tasExemple).
Proof.
  split; [reflexivity |]. split; [reflexivity |].
  exact (estVide_sous_invariant enveloppeExemple tasExemple
           (TableauMutable.creerEnveloppeMutable [Some 1; Some 2])
           eq_refl eq_refl).
Defined.

(** Without the invariant, computed: after [undefined] was added and
    its removal threw, the [tableau] is empty again and [estVide()]
    answers [false]. *)
Example estVide_apres_exception :
  (r <- EnveloppeMutable.creerTableauMutableVide (fun x : Natif.Case nat => x) ;;
   EnveloppeMutable.ajouterEnFin r None ;;;
   fun h => (EnveloppeMutable.estVide r (EnveloppeMutable.retirerEnFin r h).2))
    []
  = (Retour false,
     [{| TableauMutable.taille := 1;
         TableauMutable.tableau := [];
         TableauMutable.mutable := ZERO |}]).
Proof. reflexivity. Qed.

(* ===================================================================== *)
(** * Concrete runs on a mutable array of two cells                       *)
(* ===================================================================== *)

Lemma enveloppeDeux_entierSur :
  Natif.entierSur
    (TableauMutable.taille
       (TableauMutable.creerEnveloppeMutable [Some 1; Some 2])).
Proof. unfold Natif.entierSur; simpl; lia. Defined.

Lemma enveloppeDeux_estIndice :
  Natif.estIndice
    (length (TableauMutable.tableau
               (TableauMutable.creerEnveloppeMutable [Some 1; Some 2]))).
Proof. unfold Natif.estIndice; simpl; lia. Defined.

(** Witness of X2: adding 3 to [[1; 2]] and removing it. *)
Lemma ajouter_puis_retirer_defini_temoin :
  Natif.entierSur
    (TableauMutable.taille
       (TableauMutable.creerEnveloppeMutable [Some 1; Some 2]))
  /\ Natif.estIndice
       (length (TableauMutable.tableau
                  (TableauMutable.creerEnveloppeMutable [Some 1; Some 2])))
  /\ (TableauMutable.ajouterEnFin (Some 3) ;;; TableauMutable.retirerEnFin)
       (TableauMutable.creerEnveloppeMutable [Some 1; Some 2])
     = (Retour 3, TableauMutable.creerEnveloppeMutable [Some 1; Some 2]).
Proof.
  split; [exact enveloppeDeux_entierSur |].
  split; [exact enveloppeDeux_estIndice |].
  exact (ajouter_puis_retirer_defini nat
           (TableauMutable.creerEnveloppeMutable [Some 1; Some 2]) 3
           enveloppeDeux_entierSur enveloppeDeux_estIndice).
Defined.

(** Witness of X4: adding 3 and 4 to [[1; 2]], then removing twice. *)
Lemma ajouter_puis_retirer_pile_temoin :
  Natif.entierSur
    (TableauMutable.taille
       (TableauMutable.creerEnveloppeMutable [Some 1; Some 2]))
  /\ Natif.entierSur
       (TableauMutable.taille
          (TableauMutable.creerEnveloppeMutable [Some 1; Some 2])
        + Z.of_nat (length [3; 4]))
  /\ (Z.of_nat (length (TableauMutable.tableau
                          (TableauMutable.creerEnveloppeMutable
                             [Some 1; Some 2])))
      + Z.of_nat (length [3; 4]) <= 2 ^ 32 - 1)%Z
  /\ (ajouterTous [3; 4] ;;; retirerFois 2)
       (TableauMutable.creerEnveloppeMutable [Some 1; Some 2])
     = (Retour [4; 3], TableauMutable.creerEnveloppeMutable [Some 1; Some 2]).
Proof.
  assert (Natif.entierSur
            (TableauMutable.taille
               (TableauMutable.creerEnveloppeMutable [Some 1; Some 2])
             + Z.of_nat (length [3; 4]))) as Hsur
    by (unfold Natif.entierSur; simpl; lia).
  assert (Z.of_nat (length (TableauMutable.tableau
                              (TableauMutable.creerEnveloppeMutable
                                 [Some 1; Some 2])))
          + Z.of_nat (length [3; 4]) <= 2 ^ 32 - 1)%Z as Hplace
    by (simpl; lia).
  split; [exact enveloppeDeux_entierSur |].
  split; [exact Hsur |]. split; [exact Hplace |].
  exact (ajouter_puis_retirer_pile nat [3; 4]
           (TableauMutable.creerEnveloppeMutable [Some 1; Some 2])
           enveloppeDeux_entierSur Hsur Hplace).
Defined.

(** Witness of X5: adding [undefined] to [[1; 2]] and removing. *)
Lemma ajouter_indefini_puis_retirer_temoin :
  Natif.entierSur
    (TableauMutable.taille
       (TableauMutable.creerEnveloppeMutable [Some 1; Some 2]))
  /\ Natif.estIndice
       (length (TableauMutable.tableau
                  (TableauMutable.creerEnveloppeMutable [Some 1; Some 2])))
  /\ (TableauMutable.ajouterEnFin None ;;; TableauMutable.retirerEnFin)
       (TableauMutable.creerEnveloppeMutable [Some 1; Some 2])
     = (Exception "[Exception : retirerEnFin() non défini.]",
        {| TableauMutable.taille := 3;
           TableauMutable.tableau := [Some 1; Some 2];
           TableauMutable.mutable := ZERO |}).
Proof.
  split; [exact enveloppeDeux_entierSur |].
  split; [exact enveloppeDeux_estIndice |].
  exact (proj1 (ajouter_indefini_puis_retirer nat
                  (TableauMutable.creerEnveloppeMutable [Some 1; Some 2])
                  enveloppeDeux_entierSur enveloppeDeux_estIndice)).
Defined.

(** Witness of X6: reading [[1; 2]] after 3 was added. *)
Lemma valeur_apres_ajouterEnFin_temoin :
  Natif.entierSur
    (TableauMutable.taille
       (TableauMutable.creerEnveloppeMutable [Some 1; Some 2]))
  /\ Natif.estIndice
       (length (TableauMutable.tableau
                  (TableauMutable.creerEnveloppeMutable [Some 1; Some 2])))
  /\ ModuleTableau.valeur
       (ModuleTableau.commeTableau
          (TableauMutable.ajouterEnFin (Some 3)
             (TableauMutable.creerEnveloppeMutable [Some 1; Some 2])).2) 2
     = Some 3
  /\ ModuleTableau.taille
       (ModuleTableau.commeTableau
          (TableauMutable.ajouterEnFin (Some 3)
             (TableauMutable.creerEnveloppeMutable [Some 1; Some 2])).2)
     = 3%Z.
Proof.
  split; [exact enveloppeDeux_entierSur |].
  split; [exact enveloppeDeux_estIndice |].
  destruct (valeur_apres_ajouterEnFin nat
              (TableauMutable.creerEnveloppeMutable [Some 1; Some 2]) (Some 3)
              enveloppeDeux_entierSur enveloppeDeux_estIndice)
    as (Hdernier & _ & Htaille).
  split; [exact Hdernier | exact Htaille].
Defined.
